(** * Session layer of the CodeGame JavaScript server

    A shallow embedding of the session/connection lifecycle code
    ([secret.ts], [socket.ts], [game-socket.ts], [player.ts], [game.ts],
    [server.ts]) together with the properties the specification states
    about it.

    Conventions of the embedding:
    - a JS object used as a dictionary is a [gmap string _];
      [Object.keys(o).length] is [size o];
    - JS numbers that hold counts, limits and millisecond timestamps are
      integers of [Z]; [Math.random()] yields a rational of [Q];
    - [Date.now()], [v4()] and [Math.random()] are inputs of the functions
      that call them;
    - a method that may [throw] returns a [Completion];
    - the state-changing methods return the new state; the debug messages
      they log on the way are listed only where a property is about them
      ([GameSocket.handleMessage]). *)

From Stdlib Require Import ZArith QArith Qround String Ascii List Lia.
From Stdlib Require DecimalString.
From stdpp Require Import base gmap strings list fin_maps.
Import ListNotations.

Local Open Scope string_scope.
Local Open Scope Z_scope.
Local Open Scope list_scope.

(** ** JavaScript completions *)

Inductive Completion (A : Type) : Type :=
| Return (a : A)
| Throw (err : string).
Arguments Return {A} a.
Arguments Throw {A} err.

(** [Object.entries(o)], [Object.values(o)] and [Object.keys(o).length]
    of a dictionary.  The lists come in the order of [map_to_list], not
    in insertion order; the order only shows in the order of the
    actions a loop takes. *)
Definition Object_entries {V : Type} (o : gmap string V) : list (string * V) :=
  map_to_list o.

Definition Object_values {V : Type} (o : gmap string V) : list V :=
  (map_to_list o).*2.

Definition Object_keys_length {V : Type} (o : gmap string V) : Z :=
  Z.of_nat (size o).

(** ** secret.ts *)

Module Secret.

(** The state of the pseudo-random generator behind [Math.random()]:
    the sequence of numbers it is going to return and how many of them
    have been consumed. *)
Record Rng : Type := mkRng { draws : nat -> Q; consumed : nat }.

Definition Math_random (r : Rng) : Q * Rng :=
  (draws r (consumed r), mkRng (draws r) (S (consumed r))).

(** [Math.random()] returns a number in [0, 1). *)
Definition unit_interval (x : Q) : Prop := (0 <= x)%Q /\ (x < 1)%Q.

Definition chars : string :=
  "ABCDEFGHIJKLMNOPQRSTUVWXYZabcdefghijklmnopqrstuvwxyz0123456789".

(** [s.charAt(i)]: the one-character string at index [i], the empty
    string when [i] is out of range. *)
Definition charAt (s : string) (i : Z) : string :=
  if i <? 0 then ""
  else match String.get (Z.to_nat i) s with
       | Some c => String c EmptyString
       | None => ""
       end.

Definition chars_length : Z := Z.of_nat (String.length chars).

(** One iteration of the loop body:
    [str += chars.charAt(Math.floor(Math.random() * chars.length))].
    The product is taken exactly; the rounding of a double can move it
    across an integer, which changes the character drawn but keeps the
    index below [chars.length]. *)
Definition body (str : string) (r : Rng) : string * Rng :=
  let (x, r') := Math_random r in
  (String.append str (charAt chars (Qfloor (x * inject_Z chars_length))), r').

Fixpoint loop (iterations : nat) (str : string) (r : Rng) : string * Rng :=
  match iterations with
  | O => (str, r)
  | S n => let (str', r') := body str r in loop n str' r'
  end.

(** [randomSecret(length)]; [for (let i = 0; i < length; i++)] runs
    [length] times for a non-negative integer [length] and not at all
    for a negative one. *)
Definition randomSecret (length : Z) (r : Rng) : string * Rng :=
  loop (Z.to_nat length) "" r.

Definition DEFAULT_LENGTH : Z := 64.

Definition randomSecret_default (r : Rng) : string * Rng :=
  randomSecret DEFAULT_LENGTH r.

(** The alphabet [A-Za-z0-9], by character code. *)
Definition alphanumeric (c : ascii) : bool :=
  let n := nat_of_ascii c in
  ((65 <=? n)%nat && (n <=? 90)%nat)
  || ((97 <=? n)%nat && (n <=? 122)%nat)
  || ((48 <=? n)%nat && (n <=? 57)%nat).

Definition all_alphanumeric (s : string) : bool :=
  forallb alphanumeric (list_ascii_of_string s).

End Secret.

(** ** Object handles

    The dictionaries of the session layer hold references to socket
    objects.  A socket object is represented by its handle, the [id] it
    was given by [v4()] at construction; what happens to the underlying
    websocket is recorded as an [Action]. *)

Inductive Handle : Type := handle (id : string).

Definition handle_id (h : Handle) : string :=
  match h with handle id => id end.

(** ** JSON values

    What [JSON.parse] returns.  The fields of an object are kept as an
    association list with one entry per key. *)

Module JSON.

#[warnings="-register-all"]
Inductive t : Type :=
| null
| boolean (b : bool)
| number (q : Q)
| str (s : string)
| array (items : list t)
| object (fields : list (string * t)).

(** [typeof v === "object"] *)
Definition typeof_object (v : t) : bool :=
  match v with
  | null | array _ | object _ => true
  | boolean _ | number _ | str _ => false
  end.

Fixpoint assoc (key : string) (fields : list (string * t)) : option t :=
  match fields with
  | [] => None
  | (k, v) :: rest => if bool_decide (k = key) then Some v else assoc key rest
  end.

(** [v.name] for a value with [typeof v === "object"]: reading a
    property of [null] throws, a parsed array has no such property, and
    an absent property is [undefined] ([Return None]). *)
Definition get_name (v : t) : Completion (option t) :=
  match v with
  | null => Throw "TypeError: Cannot read properties of null (reading 'name')"
  | object fields => Return (assoc "name" fields)
  | _ => Return None
  end.

(** The value of a property in a condition. *)
Definition truthy (o : option t) : bool :=
  match o with
  | None => false
  | Some null => false
  | Some (boolean b) => b
  | Some (number q) => negb (Qeq_bool q 0)
  | Some (str s) => negb (bool_decide (s = ""))
  | Some (array _) => true
  | Some (object _) => true
  end.

End JSON.

(** ** Debug messages and the actions of a handler *)

Inductive Severity : Type := ERROR | WARNING | INFO | TRACE.

Record DebugMessage : Type := mkDebugMessage {
  severity : Severity;
  message : string;
  data : option JSON.t
}.

(** What a handler does besides updating the session state. *)
Inductive Action : Type :=
| debug_send (socket : Handle) (m : DebugMessage)
| game_send (socket : Handle) (event : JSON.t)
| ws_terminate (socket : Handle)
| ws_ping (socket : Handle)
| clear_interval (socket : Handle)
| on_disconnect (socket : Handle)
| handle_command (playerId : string) (command : JSON.t)
| console_error.

(** ** logger.ts *)

Module Logger.

Record t : Type := mk { debugSockets : gmap string Handle }.

Definition new : t := mk ∅.

(** [broadcastDebugMessage(message)]: [debugSocket.send(message)] for
    every debug socket of the logger. *)
Definition broadcastDebugMessage (l : t) (m : DebugMessage) : list Action :=
  map (fun debugSocket => debug_send debugSocket m) (Object_values (debugSockets l)).

Definition error (l : t) (text : string) (d : option JSON.t) : list Action :=
  broadcastDebugMessage l (mkDebugMessage ERROR text d).

Definition warn (l : t) (text : string) (d : option JSON.t) : list Action :=
  broadcastDebugMessage l (mkDebugMessage WARNING text d).

Definition info (l : t) (text : string) (d : option JSON.t) : list Action :=
  broadcastDebugMessage l (mkDebugMessage INFO text d).

Definition trace (l : t) (text : string) (d : option JSON.t) : list Action :=
  broadcastDebugMessage l (mkDebugMessage TRACE text d).

(** [this.debugSockets[debugSocket.id] = debugSocket] *)
Definition addDebugSocket (l : t) (debugSocket : Handle) : t :=
  mk (<[handle_id debugSocket := debugSocket]> (debugSockets l)).

(** [delete this.debugSockets[socket.id]] *)
Definition removeDebugSocket (l : t) (socket : Handle) : t :=
  mk (delete (handle_id socket) (debugSockets l)).

End Logger.

(** ** player.ts *)

Module Player.

Record t : Type := mk {
  id : string;
  username : string;
  secret : string;
  gameSockets : gmap string Handle;
  debugSockets : gmap string Handle;
  inactiveSince : Z;
  logger : Logger.t
}.

(** The field initialisers and the constructor: [id = v4()],
    [secret = randomSecret()], empty socket dictionaries,
    [inactiveSince = 0]. *)
Definition new (uuid : string) (username : string) (r : Secret.Rng) : t * Secret.Rng :=
  let (sec, r') := Secret.randomSecret_default r in
  (mk uuid username sec ∅ ∅ 0 Logger.new, r').

(** [verifySecret(secret)]: [this.secret === secret] (after a warning
    to the player's debug observers). *)
Definition verifySecret (p : t) (candidate : string) : bool :=
  bool_decide (secret p = candidate).

(** [terminate()] calls [socket.terminate()] on every game socket and
    then on every debug socket; the result lists the sockets whose
    websocket is terminated. *)
Definition terminate (p : t) : list Handle :=
  Object_values (gameSockets p) ++ Object_values (debugSockets p).

Definition addGameSocket (p : t) (gameSocket : Handle) : t :=
  mk (id p) (username p) (secret p)
     (<[handle_id gameSocket := gameSocket]> (gameSockets p))
     (debugSockets p) (inactiveSince p) (logger p).

(** [removeGameSocket(socket)], called at time [now = Date.now()]. *)
Definition removeGameSocket (p : t) (socket : Handle) (now : Z) : t :=
  let gameSockets' := delete (handle_id socket) (gameSockets p) in
  mk (id p) (username p) (secret p) gameSockets' (debugSockets p)
     (if Object_keys_length gameSockets' =? 0 then now else inactiveSince p)
     (logger p).

Definition addDebugSocket (p : t) (debugSocket : Handle) : t :=
  mk (id p) (username p) (secret p) (gameSockets p)
     (<[handle_id debugSocket := debugSocket]> (debugSockets p))
     (inactiveSince p) (logger p).

Definition removeDebugSocket (p : t) (socket : Handle) : t :=
  mk (id p) (username p) (secret p) (gameSockets p)
     (delete (handle_id socket) (debugSockets p))
     (inactiveSince p) (logger p).

Definition set_logger (p : t) (l : Logger.t) : t :=
  mk (id p) (username p) (secret p) (gameSockets p) (debugSockets p)
     (inactiveSince p) l.

(** [active()]: [Object.keys(this.gameSockets).length !== 0]. *)
Definition active (p : t) : bool :=
  negb (Object_keys_length (gameSockets p) =? 0).

(** The calls a game socket and the upgrade handler make on a player
    over time, each with the reading of the clock when it is made. *)
Inductive Call : Type :=
| AddGameSocket (gameSocket : Handle)
| RemoveGameSocket (socket : Handle) (now : Z).

Definition call (p : t) (c : Call) : t :=
  match c with
  | AddGameSocket s => addGameSocket p s
  | RemoveGameSocket s now => removeGameSocket p s now
  end.

Definition calls (p : t) (cs : list Call) : t := fold_left call cs p.

(** The double quote of the template literals below. *)
Definition quote : string := String (ascii_of_nat 34) EmptyString.

Definition received_text (name : string) : string :=
  String.append "Received command "
    (String.append quote (String.append name (String.append quote "."))).

Definition unknown_text (name : string) : string :=
  String.append "Command "
    (String.append quote
       (String.append name
          (String.append quote " is unknown and cannot be handled."))).

Section Commands.

(** [ToString] of a property value that is not a string.  It throws a
    [TypeError] for a value that cannot be converted to a primitive, such
    as an object whose own [toString] is not callable. *)
Variable ToString : option JSON.t -> Completion string.

(** The string the template literal [`${command.name}`] makes of the
    property: a string is itself, any other value is converted. *)
Definition interpolate (v : option JSON.t) : Completion string :=
  match v with
  | Some (JSON.str text) => Return text
  | _ => ToString v
  end.

(** The abstract [handleCommand(command)] of the concrete player class;
    it may throw. *)
Variable handleCommand : t -> JSON.t -> Completion bool.

(** [handleCommandInternalWrapper(command)]: the [try] block builds the
    text of the trace from [command.name], logs it, passes the command
    to [handleCommand] and, when that returns [false], builds and logs
    the text of the error; whatever is thrown on the way ends in
    [console.error]. *)
Definition handleCommandInternalWrapper (p : t) (command : JSON.t) : list Action :=
  match JSON.get_name command with
  | Throw _ => [console_error]
  | Return name =>
    match interpolate name with
    | Throw _ => [console_error]
    | Return text =>
      Logger.trace (logger p) (received_text text)
                   (Some (JSON.object [("command", command)]))
      ++ handle_command (id p) command
         :: match handleCommand p command with
            | Return true => []
            | Return false =>
              match interpolate name with
              | Return text' =>
                Logger.error (logger p) (unknown_text text')
                             (Some (JSON.object [("command", command)]))
              | Throw _ => [console_error]
              end
            | Throw _ => [console_error]
            end
    end
  end.

End Commands.

End Player.

(** ** game.ts *)

Module Game.

Definition DEFAULT_MAX_PLAYER_COUNT : Z := 6.
Definition DEFAULT_MAX_INACTIVE_MINUTES : Z := 10.

Section WithConfig.
Context {Config : Type}.

Record t : Type := mk {
  MAX_PLAYER_COUNT : Z;
  MAX_INACTIVE_TIME_MINUTES : Z;
  id : string;
  protected : bool;
  secret : string;
  config : Config;
  players : gmap string Player.t;
  spectators : gmap string Handle;
  logger : Logger.t;
  joiningAllowed : bool
}.

Definition set_players (g : t) (ps : gmap string Player.t) : t :=
  mk (MAX_PLAYER_COUNT g) (MAX_INACTIVE_TIME_MINUTES g) (id g) (protected g)
     (secret g) (config g) ps (spectators g) (logger g) (joiningAllowed g).

Definition set_spectators (g : t) (ss : gmap string Handle) : t :=
  mk (MAX_PLAYER_COUNT g) (MAX_INACTIVE_TIME_MINUTES g) (id g) (protected g)
     (secret g) (config g) (players g) ss (logger g) (joiningAllowed g).

Definition set_logger (g : t) (l : Logger.t) : t :=
  mk (MAX_PLAYER_COUNT g) (MAX_INACTIVE_TIME_MINUTES g) (id g) (protected g)
     (secret g) (config g) (players g) (spectators g) l (joiningAllowed g).

Definition set_joiningAllowed (g : t) (b : bool) : t :=
  mk (MAX_PLAYER_COUNT g) (MAX_INACTIVE_TIME_MINUTES g) (id g) (protected g)
     (secret g) (config g) (players g) (spectators g) (logger g) b.

(** The abstract members a concrete game class has to provide. *)
Record Subclass : Type := {
  configSanitizer : option Config -> Config;
  createPlayer : string -> string -> Secret.Rng -> Player.t * Secret.Rng;
  playerAdded : t -> Player.t -> t;
  playerRemoved : t -> Player.t -> t
}.

(** The constructor.  An omitted argument is [None]; [0] is the falsy
    integer, for which the defaults are taken. *)
Definition new (sub : Subclass) (_protected : bool) (cfg : option Config)
    (maxPlayerCount maxInactiveTimeMinutes : option Z)
    (uuid : string) (r : Secret.Rng) : t * Secret.Rng :=
  let maxPlayerCount := default DEFAULT_MAX_PLAYER_COUNT maxPlayerCount in
  let maxInactiveTimeMinutes :=
    default DEFAULT_MAX_INACTIVE_MINUTES maxInactiveTimeMinutes in
  let (sec, r') := Secret.randomSecret_default r in
  (mk (if maxPlayerCount =? 0 then DEFAULT_MAX_PLAYER_COUNT
       else Z.max maxPlayerCount 1)
      (if maxInactiveTimeMinutes =? 0 then DEFAULT_MAX_INACTIVE_MINUTES
       else maxInactiveTimeMinutes)
      uuid _protected sec (configSanitizer sub cfg) ∅ ∅ Logger.new true,
   r').

Definition verifySecret (g : t) (candidate : string) : bool :=
  bool_decide (secret g = candidate).

(** The condition of the loop of [active()] for one player. *)
Definition within_window (g : t) (now : Z) (player : Player.t) : bool :=
  Player.active player
  || (Player.inactiveSince player >? now - MAX_INACTIVE_TIME_MINUTES g * 60 * 1000).

(** [active()], called at time [now = Date.now()].  The loop keeps the
    flag and, in its [else] branch, terminates the player; the second
    component lists the sockets terminated that way. *)
Definition active_loop (g : t) (now : Z) (players : list Player.t)
    : bool * list Handle :=
  fold_left
    (fun (acc : bool * list Handle) (player : Player.t) =>
       if within_window g now player then (true, acc.2)
       else (acc.1, acc.2 ++ Player.terminate player))
    players (false, []).

Definition active_run (g : t) (now : Z) : bool * list Handle :=
  active_loop g now (Object_values (players g)).

Definition active (g : t) (now : Z) : bool := (active_run g now).1.

(** [terminate()]: every player is terminated. *)
Definition terminate (g : t) : list Handle :=
  flat_map Player.terminate (Object_values (players g)).

Definition getPlayerCount (g : t) : Z := Object_keys_length (players g).

(** [full()]: [!(this.getPlayerCount() < this.MAX_PLAYER_COUNT)]. *)
Definition full (g : t) : bool := negb (getPlayerCount g <? MAX_PLAYER_COUNT g).

Definition allowJoining (g : t) : t := set_joiningAllowed g true.
Definition disallowJoining (g : t) : t := set_joiningAllowed g false.
Definition joinable (g : t) : bool := joiningAllowed g.

Definition getPlayers (g : t) : gmap string Player.t := players g.

(** [getPlayer(playerId)]: [this.players[playerId]], which is
    [undefined] ([None]) for an id that is not a key. *)
Definition getPlayer (g : t) (playerId : string) : option Player.t :=
  players g !! playerId.

(** [addPlayer(username)].  [uuid] and [r] feed the player's field
    initialisers; they are untouched when the method throws. *)
Definition addPlayer (sub : Subclass) (g : t) (username : string)
    (uuid : string) (r : Secret.Rng)
    : Completion Player.t * t * Secret.Rng :=
  if full g then (Throw "The game is full.", g, r)
  else
    let (newPlayer, r') := createPlayer sub username uuid r in
    let g1 := set_players g (<[Player.id newPlayer := newPlayer]> (players g)) in
    let g2 := playerAdded sub g1 newPlayer in
    (Return newPlayer, g2, r').

Definition removePlayer (sub : Subclass) (g : t) (player : Player.t) : t :=
  let g1 := playerRemoved sub g player in
  set_players g1 (delete (Player.id player) (players g1)).

Definition addSpectator (g : t) (socket : Handle) : t :=
  set_spectators g (<[handle_id socket := socket]> (spectators g)).

Definition removeSpectator (g : t) (socket : Handle) : t :=
  set_spectators g (delete (handle_id socket) (spectators g)).

End WithConfig.
Arguments t : clear implicits.
Arguments Subclass : clear implicits.

End Game.

(** ** server.ts *)

Module GameServer.

Definition DEFAULT_PORT : Z := 8080.
Definition DEFAULT_GAMES_COUNT : Z := 500.
Definition DEFAULT_HEARTBEAT_INTERVAL_SECONDS : Z := 10 * 60.

(** What [deserializeURL] returns; a group that did not take part in
    the match, and a missing query parameter, are [None]. *)
Module URL.
Record t : Type := mk {
  gameId : option string;
  route : option string;
  playerId : option string;
  playerRoute : option string;
  playerSecret : option string
}.
End URL.

(** A string in a condition: [undefined], [null] and [""] are falsy. *)
Definition truthy (o : option string) : bool :=
  match o with
  | Some s => negb (bool_decide (s = ""))
  | None => false
  end.

Section WithConfig.
Context {Config : Type}.

Record t : Type := mk {
  MAX_GAMES_COUNT : Z;
  HEARTBEAT_INTERVAL_SECONDS : Z;
  publicGames : gmap string (Game.t Config);
  privateGames : gmap string (Game.t Config);
  logger : Logger.t
}.

(** [CreateGameFn]: builds a game from the protection flag and the
    config; [v4()] and the random generator are what its field
    initialisers consume. *)
Definition CreateGameFn : Type :=
  bool -> option Config -> string -> Secret.Rng -> Game.t Config * Secret.Rng.

(** The configuration part of the constructor, with its guards. *)
Definition new (maxGamesCount heartbeatIntervalSeconds : option Z) : t :=
  let maxGamesCount := default DEFAULT_GAMES_COUNT maxGamesCount in
  let heartbeatIntervalSeconds :=
    default DEFAULT_HEARTBEAT_INTERVAL_SECONDS heartbeatIntervalSeconds in
  mk (if maxGamesCount =? 0 then DEFAULT_GAMES_COUNT else maxGamesCount)
     (if heartbeatIntervalSeconds =? 0 then DEFAULT_HEARTBEAT_INTERVAL_SECONDS
      else heartbeatIntervalSeconds)
     ∅ ∅ Logger.new.

Definition set_publicGames (s : t) (gs : gmap string (Game.t Config)) : t :=
  mk (MAX_GAMES_COUNT s) (HEARTBEAT_INTERVAL_SECONDS s) gs (privateGames s) (logger s).

Definition set_privateGames (s : t) (gs : gmap string (Game.t Config)) : t :=
  mk (MAX_GAMES_COUNT s) (HEARTBEAT_INTERVAL_SECONDS s) (publicGames s) gs (logger s).

Definition set_logger (s : t) (l : Logger.t) : t :=
  mk (MAX_GAMES_COUNT s) (HEARTBEAT_INTERVAL_SECONDS s) (publicGames s)
     (privateGames s) l.

(** [getGame(gameId)]: [this.publicGames[gameId] || this.privateGames[gameId]]. *)
Definition getGame (s : t) (gameId : string) : option (Game.t Config) :=
  match publicGames s !! gameId with
  | Some game => Some game
  | None => privateGames s !! gameId
  end.

(** [maxGamesCountReached()]; both summands read [this.publicGames]. *)
Definition maxGamesCountReached (s : t) : bool :=
  Object_keys_length (publicGames s) + Object_keys_length (publicGames s)
  =? MAX_GAMES_COUNT s.

(** The number of games the server holds. *)
Definition gamesCount (s : t) : Z :=
  Object_keys_length (publicGames s) + Object_keys_length (privateGames s).

(** The state of [deleteInactive] while it runs: the server, the ids
    pushed to [deleted], and the sockets terminated so far. *)
Record Sweep : Type := mkSweep {
  server : t;
  deleted : list string;
  terminated : list Handle
}.

Definition deleteInactive_step (now : Z) (acc : Sweep)
    (entry : string * Game.t Config) : Sweep :=
  let (gameId, game) := entry in
  let (active, stale) := Game.active_run game now in
  if negb active then
    mkSweep
      (set_privateGames
         (set_publicGames (server acc) (delete gameId (publicGames (server acc))))
         (delete gameId (privateGames (server acc))))
      (deleted acc ++ [gameId])
      (terminated acc ++ stale ++ Game.terminate game)
  else mkSweep (server acc) (deleted acc) (terminated acc ++ stale).

(** [deleteInactive()]: one loop, over
    [Object.entries(this.publicGames)].  The sweep is synchronous; every
    [Date.now()] in it reads the same [now]. *)
Definition deleteInactive (s : t) (now : Z) : Sweep :=
  fold_left (deleteInactive_step now) (Object_entries (publicGames s))
            (mkSweep s [] []).

Record CreateGameResult : Type := mkResult {
  gameId : string;
  joinSecret : option string
}.

Definition capacity_message : string :=
  "The maximum number of games for this server has been reached.".

(** [createGame(_public, _protected, config)]. *)
Definition createGame (createGameFn : CreateGameFn) (s : t) (now : Z)
    (_public _protected : bool) (cfg : option Config)
    (uuid : string) (r : Secret.Rng)
    : Completion CreateGameResult * t * Secret.Rng :=
  let s1 := server (deleteInactive s now) in
  if maxGamesCountReached s1 then (Throw capacity_message, s1, r)
  else
    let (game, r') := createGameFn _protected cfg uuid r in
    let s2 :=
      if _public then set_publicGames s1 (<[Game.id game := game]> (publicGames s1))
      else set_privateGames s1 (<[Game.id game := game]> (privateGames s1)) in
    (Return (mkResult (Game.id game) (Some (Game.secret game))), s2, r').

(** Writing through the reference [getGame] returned. *)
Definition storeGame (s : t) (gameId : string) (game : Game.t Config) : t :=
  match publicGames s !! gameId with
  | Some _ => set_publicGames s (<[gameId := game]> (publicGames s))
  | None => set_privateGames s (<[gameId := game]> (privateGames s))
  end.

Definition storePlayer (game : Game.t Config) (playerId : string)
    (player : Player.t) : Game.t Config :=
  Game.set_players game (<[playerId := player]> (Game.players game)).

(** What the upgrade handler does to the raw connection. *)
Inductive Transport : Type := socket_destroy.

Definition type_error : string :=
  "TypeError: Cannot read properties of undefined (reading 'verifySecret')".

(** The part of the upgrade callback after [deserializeURL]: [ws] is the
    handle the new socket object gets. *)
Definition route_upgrade (s : t) (u : URL.t) (ws : Handle)
    : Completion unit * t * list Transport :=
  match (if truthy (URL.gameId u) then URL.gameId u else None) with
  | None => (Return tt, s, [socket_destroy])
  | Some gameId =>
    match getGame s gameId with
    | None => (Return tt, s, [socket_destroy])
    | Some game =>
      if bool_decide (URL.route u = Some "spectate") then
        (Return tt, storeGame s gameId (Game.addSpectator game ws), [])
      else if bool_decide (URL.route u = Some "debug") then
        (Return tt,
         storeGame s gameId
           (Game.set_logger game (Logger.addDebugSocket (Game.logger game) ws)),
         [])
      else if bool_decide (URL.route u = Some "players")
              && truthy (URL.playerId u) && truthy (URL.playerSecret u) then
        let playerId := default "" (URL.playerId u) in
        let playerSecret := default "" (URL.playerSecret u) in
        match Game.getPlayer game playerId with
        | None => (Throw type_error, s, [])
        | Some player =>
          if negb (Player.verifySecret player playerSecret) then
            (Return tt, s, [socket_destroy])
          else if bool_decide (URL.playerRoute u = Some "connect") then
            (Return tt,
             storeGame s gameId
               (storePlayer game playerId (Player.addGameSocket player ws)),
             [])
          else if bool_decide (URL.playerRoute u = Some "debug") then
            (Return tt,
             storeGame s gameId
               (storePlayer game playerId
                  (Player.set_logger player
                     (Logger.addDebugSocket (Player.logger player) ws))),
             [])
          else (Return tt, s, [])
        end
      else (Return tt, s, [])
    end
  end.

(** The callback [handleUpgrades] registers, for a request with the
    given [request.url].  [deserializeURL] stands for the static method
    of that name, the match of [pathMatcher] followed by the lookup of
    [player_secret] in the query. *)
Definition handleUpgrade (deserializeURL : string -> URL.t) (s : t)
    (url : option string) (ws : Handle)
    : Completion unit * t * list Transport :=
  match url with
  | None => (Return tt, s, [socket_destroy])
  | Some url =>
    if bool_decide (url = "") then (Return tt, s, [socket_destroy])
    else if bool_decide (url = "/api/debug") then
      (Return tt, set_logger s (Logger.addDebugSocket (logger s) ws), [])
    else route_upgrade s (deserializeURL url) ws
  end.

End WithConfig.
Arguments t : clear implicits.
Arguments CreateGameFn : clear implicits.

End GameServer.

(** ** socket.ts *)

Module Socket.

(** The [readyState] of the wrapped websocket, as far as the heartbeat
    is concerned: [terminate()] destroys the connection, and the
    websocket emits its [close] event afterwards. *)
Inductive ReadyState : Type := OPEN | CLOSING | CLOSED.

Record t : Type := mk {
  id : Handle;
  HEARTBEAT_INTERVAL_SECONDS : Z;
  connectionAlive : bool;
  heartbeatInterval : bool; (* the timer is set and has not been cleared *)
  readyState : ReadyState
}.

(** The constructor, which ends in [startHeartbeat()]: the listeners
    are registered and the timer is armed. *)
Definition new (uuid : string) (heartbeatIntervalSeconds : Z) : t :=
  mk (handle uuid) heartbeatIntervalSeconds true true OPEN.

(** [this.socket.terminate()] *)
Definition ws_terminated (st : ReadyState) : ReadyState :=
  match st with
  | OPEN => CLOSING
  | CLOSING => CLOSING
  | CLOSED => CLOSED
  end.

(** The listener of ['pong']. *)
Definition on_pong (s : t) : t * list Action :=
  (mk (id s) (HEARTBEAT_INTERVAL_SECONDS s) true (heartbeatInterval s) (readyState s),
   []).

(** The listener of ['close']. *)
Definition on_close (s : t) : t * list Action :=
  (mk (id s) (HEARTBEAT_INTERVAL_SECONDS s) (connectionAlive s) false CLOSED,
   on_disconnect (id s)
   :: (if heartbeatInterval s then [clear_interval (id s)] else [])).

(** The callback of [setInterval]. *)
Definition on_tick (s : t) : t * list Action :=
  (mk (id s) (HEARTBEAT_INTERVAL_SECONDS s) false (heartbeatInterval s)
      (if connectionAlive s then readyState s else ws_terminated (readyState s)),
   (if connectionAlive s then [] else [ws_terminate (id s); on_disconnect (id s)])
   ++ [ws_ping (id s)]).

(** [terminate()] *)
Definition terminate (s : t) : t * list Action :=
  (mk (id s) (HEARTBEAT_INTERVAL_SECONDS s) (connectionAlive s)
      (heartbeatInterval s) (ws_terminated (readyState s)),
   [ws_terminate (id s)]).

(** The events the event loop delivers to a socket. *)
Inductive Event : Type := pong | close | tick.

(** An open websocket receives pongs; a websocket emits [close] once,
    when the peer or the network closes it or after it was terminated;
    the timer fires until it is cleared. *)
Definition enabled (s : t) (e : Event) : bool :=
  match e with
  | pong => match readyState s with OPEN => true | _ => false end
  | close => match readyState s with CLOSED => false | _ => true end
  | tick => heartbeatInterval s
  end.

Definition handler (s : t) (e : Event) : t * list Action :=
  match e with
  | pong => on_pong s
  | close => on_close s
  | tick => on_tick s
  end.

Definition step (s : t) (e : Event) : option (t * list Action) :=
  if enabled s e then Some (handler s e) else None.

(** An execution: the events in the order they are delivered, with the
    actions taken so far. *)
Fixpoint run (s : t) (done : list Action) (events : list Event)
    : option (t * list Action) :=
  match events with
  | [] => Some (s, done)
  | e :: rest =>
    match step s e with
    | Some (s', actions) => run s' (done ++ actions) rest
    | None => None
    end
  end.

Definition is_on_disconnect (a : Action) : bool :=
  match a with on_disconnect _ => true | _ => false end.

Definition is_ws_terminate (a : Action) : bool :=
  match a with ws_terminate _ => true | _ => false end.

(** How often [onDisconnect()] was called. *)
Definition notifications (actions : list Action) : nat :=
  length (List.filter is_on_disconnect actions).

(** How often the heartbeat terminated the websocket. *)
Definition pong_timeouts (actions : list Action) : nat :=
  length (List.filter is_ws_terminate actions).

End Socket.

(** ** game-socket.ts *)

Module GameSocket.

Definition not_object_text : string :=
  "Socket message must represent a JSON object.".
Definition no_name_text : string :=
  "Commands must have a `name` property to be valid.".
Definition not_json_text : string :=
  "Unable to deserialize socket message.".

Definition raw_message (raw : string) : option JSON.t :=
  Some (JSON.object [("raw_message", JSON.str raw)]).

Section Messages.

(** [JSON.parse]: [None] when it throws a [SyntaxError]. *)
Variable JSON_parse : string -> option JSON.t.
Variable ToString : option JSON.t -> Completion string.
Variable handleCommand : Player.t -> JSON.t -> Completion bool.

(** [handleMessage(message)] of a game socket whose [this.player] is
    [player]; [raw] is [message.data.toString()]. *)
Definition handleMessage (player : Player.t) (raw : string) : list Action :=
  match JSON_parse raw with
  | None => Logger.error (Player.logger player) not_json_text (raw_message raw)
  | Some deserialized =>
    if negb (JSON.typeof_object deserialized) then
      Logger.error (Player.logger player) not_object_text (raw_message raw)
    else
      match JSON.get_name deserialized with
      | Throw _ =>
        Logger.error (Player.logger player) not_json_text (raw_message raw)
      | Return name =>
        if negb (JSON.truthy name) then
          Logger.error (Player.logger player) no_name_text
                       (Some (JSON.object [("invalid_command", deserialized)]))
        else
          Player.handleCommandInternalWrapper ToString handleCommand
                                              player deserialized
      end
  end.

(** The three ways a message is malformed. *)
Definition malformed (raw : string) : Prop :=
  match JSON_parse raw with
  | None => True
  | Some (JSON.object fields) => JSON.assoc "name" fields = None
  | Some _ => True
  end.

End Messages.

(** [send(message)] *)
Definition send (self : Handle) (event : JSON.t) : list Action :=
  [game_send self event].

(** [onDisconnect()]: [this.player.removeGameSocket(this)]. *)
Definition onDisconnect (self : Handle) (player : Player.t) (now : Z) : Player.t :=
  Player.removeGameSocket player self now.

(** The owner of a game socket as its heartbeat runs: every
    [onDisconnect()] among the actions of a handler reaches the player,
    at the time the handler runs. *)
Definition notify (self : Handle) (now : Z) (player : Player.t)
    (actions : list Action) : Player.t :=
  fold_left
    (fun p a => if Socket.is_on_disconnect a then onDisconnect self p now else p)
    actions player.

(** A game socket and its player along timed events. *)
Fixpoint lifetime (s : Socket.t) (player : Player.t)
    (events : list (Z * Socket.Event)) : option (Socket.t * Player.t) :=
  match events with
  | [] => Some (s, player)
  | (now, e) :: rest =>
    match Socket.step s e with
    | Some (s', actions) => lifetime s' (notify (Socket.id s) now player actions) rest
    | None => None
    end
  end.

End GameSocket.

(** ** Events: [sendEvent] (player.ts), [broadcastEvent] (game.ts) and
    spectator-socket.ts *)

Module Fanout.

(** [AnyEvent]: a name and, optionally, data. *)
Record AnyEvent : Type := mkEvent { name : string; data : option JSON.t }.

(** The object that [JSON.stringify] is given. *)
Definition payload (event : AnyEvent) : JSON.t :=
  JSON.object
    (("name", JSON.str (name event))
     :: match data event with
        | Some d => [("data", d)]
        | None => []
        end).

Definition sent_text (name : string) : string :=
  String.append "Sent event "
    (String.append Player.quote (String.append name (String.append Player.quote "."))).

Definition broadcasting_text (name : string) : string :=
  String.append "Broadcasting "
    (String.append Player.quote
       (String.append name
          (String.append Player.quote " event to all players..."))).

(** [Player.sendEvent(event)]: [socket.send(event)] for every game
    socket of the player, then a trace on the player's logger. *)
Definition sendEvent (p : Player.t) (event : AnyEvent) : list Action :=
  flat_map (fun socket => GameSocket.send socket (payload event))
           (Object_values (Player.gameSockets p))
  ++ Logger.trace (Player.logger p) (sent_text (name event))
                  (Some (JSON.object [("event", payload event)])).

(** What a broadcast does: the actions of the players and loggers, and
    [SpectatorSocket.send]. *)
Inductive Output : Type :=
| action (a : Action)
| spectator_send (socket : Handle) (event : JSON.t).

(** [SpectatorSocket.send(message)] *)
Definition send (self : Handle) (event : JSON.t) : list Output :=
  [spectator_send self event].

Section WithConfig.
Context {Config : Type}.

(** [SpectatorSocket.onDisconnect()]: [this.game.removeSpectator(this)]. *)
Definition onDisconnect (self : Handle) (game : Game.t Config) : Game.t Config :=
  Game.removeSpectator game self.

(** The body of the loop over [Object.entries(this.players)]. *)
Definition broadcast_player (event : AnyEvent) (omitPlayersById : list string)
    (entry : string * Player.t) : list Output :=
  if bool_decide (entry.1 ∈ omitPlayersById) then []
  else map action (sendEvent entry.2 event).

(** [Game.broadcastEvent(event, ...omitPlayersById)]. *)
Definition broadcastEvent (g : Game.t Config) (event : AnyEvent)
    (omitPlayersById : list string) : list Output :=
  map action
      (Logger.trace (Game.logger g) (broadcasting_text (name event))
                    (Some (JSON.object [("event", payload event)])))
  ++ flat_map (broadcast_player event omitPlayersById)
              (Object_entries (Game.players g))
  ++ flat_map (fun spectator => send spectator (payload event))
              (Object_values (Game.spectators g)).

End WithConfig.

End Fanout.

(** ** api.ts *)

Module Api.

(** What a route answers with. *)
Inductive Body : Type :=
| text (message : string)
| joined (player_id player_secret : string)
| created (game_id : string) (join_secret : option string).

Record Response : Type := mkResponse { status : Z; body : Body }.

(** The names every JS object inherits from [Object.prototype].  Looking
    one of them up in a dictionary yields the inherited property, which
    is truthy and has none of the methods of a game. *)
Definition Object_prototype_properties : list string :=
  ["constructor"; "__proto__"; "hasOwnProperty"; "isPrototypeOf";
   "propertyIsEnumerable"; "toLocaleString"; "toString"; "valueOf";
   "__defineGetter__"; "__defineSetter__"; "__lookupGetter__";
   "__lookupSetter__"].

Definition not_a_function : string := "TypeError: game.full is not a function".

(** The request of [POST /api/games/:gameId/players], for a body whose
    [username] and [join_secret], when present, are strings. *)
Record JoinRequest : Type := mkJoin {
  gameId : string;
  username : option string;
  join_secret : option string
}.

(** The request of [POST /api/games], for a body whose [public] and
    [protected], when present, are booleans. *)
Record CreateRequest (Config : Type) : Type := mkCreate {
  public : option bool;
  protected : option bool;
  config : option Config
}.
Arguments mkCreate {Config} public protected config.
Arguments public {Config} c.
Arguments protected {Config} c.
Arguments config {Config} c.

Section WithConfig.
Context {Config : Type}.

Definition respond (s : GameServer.t Config) (r : Secret.Rng) (code : Z)
    (message : string)
    : Completion Response * GameServer.t Config * Secret.Rng :=
  (Return (mkResponse code (text message)), s, r).

(** The handler of [POST /api/games/:gameId/players]. *)
Definition post_players (sub : Game.Subclass Config) (s : GameServer.t Config)
    (req : JoinRequest) (uuid : string) (r : Secret.Rng)
    : Completion Response * GameServer.t Config * Secret.Rng :=
  if bool_decide (gameId req ∈ Object_prototype_properties) then
    (Throw not_a_function, s, r)
  else
    match GameServer.getGame s (gameId req) with
    | None => respond s r 404 "Game not found."
    | Some game =>
      if Game.full game then respond s r 403 "Player limit has been reached."
      else if negb (Game.joinable game) then
        respond s r 403 "Joining has been temporarily disallowed by the game logic."
      else if negb (GameServer.truthy (username req)) then
        respond s r 400 "Please specify a username."
      else if Game.protected game && negb (GameServer.truthy (join_secret req)) then
        respond s r 400 "The game is protected. Please provide a join secret."
      else if Game.protected game
              && negb (Game.verifySecret game (default "" (join_secret req))) then
        respond s r 401 "Incorrect join secret provided."
      else
        match Game.addPlayer sub game (default "" (username req)) uuid r with
        | (Return player, game', r') =>
          (Return (mkResponse 200 (joined (Player.id player) (Player.secret player))),
           GameServer.storeGame s (gameId req) game', r')
        | (Throw err, game', r') =>
          (Throw err, GameServer.storeGame s (gameId req) game', r')
        end
    end.

(** The handler of [POST /api/games]. *)
Definition post_games (createGameFn : GameServer.CreateGameFn Config)
    (s : GameServer.t Config) (now : Z) (req : CreateRequest Config)
    (uuid : string) (r : Secret.Rng)
    : Completion Response * GameServer.t Config * Secret.Rng :=
  if GameServer.maxGamesCountReached s then
    respond s r 403 "The maximum number of games for this server has been reached."
  else
    match GameServer.createGame createGameFn s now
            (default false (public req)) (default false (protected req))
            (config req) uuid r with
    | (Return result, s', r') =>
      (Return (mkResponse 201 (created (GameServer.gameId result)
                                       (GameServer.joinSecret result))),
       s', r')
    | (Throw err, s', r') => (Throw err, s', r')
    end.

End WithConfig.

End Api.

(** ** logger.ts: the time stamp *)

Module Clock.

(** [String(number)] for a non-negative integer. *)
Definition String_of (number : nat) : string :=
  DecimalString.NilZero.string_of_uint (Nat.to_uint number).

(** [s.slice(-k)]: the last [k] characters, all of [s] when it is
    shorter. *)
Definition slice_last (k : nat) (s : string) : string :=
  String.substring (String.length s - k) k s.

(** [padNumber(number)]: [("0" + String(number)).slice(-2)]. *)
Definition padNumber (number : nat) : string :=
  slice_last 2 (String.append "0" (String_of number)).

Definition digit (d : nat) : ascii := ascii_of_nat (48 + d).

End Clock.

(** ** Sample values *)

Definition alice : Player.t :=
  Player.mk "f1" "alice" "secretA" ∅ ∅ 0 Logger.new.

Definition phone : Handle := handle "c-1".

(** A game class without game logic, over the config type [unit]. *)
Definition plain : Game.Subclass unit := {|
  Game.configSanitizer := fun _ => tt;
  Game.createPlayer := fun username uuid r => Player.new uuid username r;
  Game.playerAdded := fun g _ => g;
  Game.playerRemoved := fun g _ => g
|}.

(** A game for one player, which [alice] has joined. *)
Definition solo : Game.t unit :=
  Game.mk 1 10 "a1" false "secretG" tt {["f1" := alice]} ∅ Logger.new true.

(** [alice] with one game connection. *)
Definition alice_online : Player.t := Player.addGameSocket alice phone.

(** A game nobody has joined. *)
Definition abandoned : Game.t unit :=
  Game.mk 6 10 "b2" false "secretH" tt ∅ ∅ Logger.new true.

(** A game whose only player is connected. *)
Definition running : Game.t unit :=
  Game.mk 6 10 "a1" false "secretG" tt {["f1" := alice_online]} ∅ Logger.new true.

(** The factory of the plain game class. *)
Definition plain_factory : GameServer.CreateGameFn unit :=
  fun _protected cfg uuid r => Game.new plain _protected cfg None None uuid r.

(** A server for one game, which holds one private game. *)
Definition one_private : GameServer.t unit :=
  GameServer.mk 1 600 ∅ {["a1" := running]} Logger.new.

(** A server for two games, which holds one public game. *)
Definition one_public : GameServer.t unit :=
  GameServer.mk 2 600 {["a1" := running]} ∅ Logger.new.

(** A server whose only game is private and abandoned. *)
Definition stale_private : GameServer.t unit :=
  GameServer.mk 500 600 ∅ {["b2" := abandoned]} Logger.new.

(** A server with the public game [solo]. *)
Definition lobby : GameServer.t unit :=
  GameServer.mk 500 600 {["a1" := solo]} ∅ Logger.new.

(** Requests for the game [a1] of [lobby]: for a player id that is
    not in the game, for a route that does not exist, and for a player
    route that does not exist. *)
Definition unknown_player : GameServer.URL.t :=
  GameServer.URL.mk (Some "a1") (Some "players") (Some "ff") (Some "connect")
                    (Some "x").

Definition unknown_route : GameServer.URL.t :=
  GameServer.URL.mk (Some "a1") (Some "watch") None None None.

Definition unknown_player_route : GameServer.URL.t :=
  GameServer.URL.mk (Some "a1") (Some "players") (Some "f1") (Some "watch")
                    (Some "secretA").

Definition tablet : Handle := handle "c-2".

(** A debug observer, and [alice] with that observer on her logger. *)
Definition observer : Handle := handle "d-1".

Definition alice_watched : Player.t :=
  Player.set_logger alice_online (Logger.addDebugSocket Logger.new observer).

(** The text of the command [move]: an object whose [name] is the
    string [move]. *)
Definition move_raw : string :=
  String.concat Player.quote ["{"; "name"; ":"; "move"; "}"].

Definition move_command : JSON.t := JSON.object [("name", JSON.str "move")].

(** The text of a message whose [name] is the object with the one
    property [toString] = 0. *)
Definition odd_raw : string :=
  String.concat Player.quote ["{"; "name"; ":{"; "toString"; ":0}}"].

Definition odd_command : JSON.t :=
  JSON.object [("name", JSON.object [("toString", JSON.number (inject_Z 0))])].

(** [JSON.parse] on the sample messages; any other text is taken as
    not parseable. *)
Definition sample_parse (raw : string) : option JSON.t :=
  if bool_decide (raw = move_raw) then Some move_command
  else if bool_decide (raw = odd_raw) then Some odd_command
  else if bool_decide (raw = "{}") then Some (JSON.object [])
  else if bool_decide (raw = "[]") then Some (JSON.array [])
  else if bool_decide (raw = "null") then Some JSON.null
  else if bool_decide (raw = "7") then Some (JSON.number (inject_Z 7))
  else None.

(** [ToString] on the values the samples convert: [undefined], [null],
    the booleans and objects, where an object with an own property
    [toString] (never callable in parsed JSON) cannot be converted.
    Numbers and arrays are not among the samples. *)
Definition sample_ToString (v : option JSON.t) : Completion string :=
  match v with
  | None => Return "undefined"
  | Some JSON.null => Return "null"
  | Some (JSON.boolean true) => Return "true"
  | Some (JSON.boolean false) => Return "false"
  | Some (JSON.str text) => Return text
  | Some (JSON.object fields) =>
    match JSON.assoc "toString" fields with
    | Some _ => Throw "TypeError: Cannot convert object to primitive value"
    | None => Return "[object Object]"
    end
  | Some (JSON.number _) | Some (JSON.array _) => Return ""
  end.

(** A player class that knows no command. *)
Definition no_commands (p : Player.t) (command : JSON.t) : Completion bool :=
  Return false.

(** A source that always returns 1/2. *)
Definition half_rng : Secret.Rng := Secret.mkRng (fun _ => 1 # 2)%Q 0.

(** ** Auxiliary definitions of the statements *)

(** Whether a list of entries holds an inactive game under the id [k]. *)
Definition swept {Config : Type} (now : Z) (entries : list (string * Game.t Config))
    (k : string) : bool :=
  existsb (fun entry => bool_decide (entry.1 = k) && negb (Game.active entry.2 now))
          entries.

(** What holds of a socket and the actions taken so far along every
    execution: until the [close] event the timer is armed and
    [onDisconnect()] was called once per pong timeout; after it the timer
    is cleared and there was one more call. *)
Definition lifecycle_invariant (s : Socket.t) (actions : list Action) : Prop :=
  match Socket.readyState s with
  | Socket.CLOSED =>
    Socket.heartbeatInterval s = false
    /\ Socket.notifications actions = S (Socket.pong_timeouts actions)
  | _ =>
    Socket.heartbeatInterval s = true
    /\ Socket.notifications actions = Socket.pong_timeouts actions
  end.

(** The position of a character in a string (its length when the
    character does not occur). *)
Fixpoint index_in (c : ascii) (s : string) : nat :=
  match s with
  | EmptyString => O
  | String a rest => if Ascii.eqb a c then O else S (index_in c rest)
  end.

(** A random source that returns the same number at every draw. *)
Definition constant_rng (x : Q) : Secret.Rng := Secret.mkRng (fun _ => x) 0.

Definition is_game_send (a : Action) : bool :=
  match a with game_send _ _ => true | _ => false end.

Definition is_debug_send (a : Action) : bool :=
  match a with debug_send _ _ => true | _ => false end.

(** [alice] after her only game connection detached at time 1000, and
    a game with a window of 10 minutes whose only player she is. *)
Definition alice_left : Player.t := Player.removeGameSocket alice_online phone 1000.

Definition deserted : Game.t unit :=
  Game.mk 6 10 "d4" false "secretI" tt {["f1" := alice_left]} ∅ Logger.new true.

(** [alice] with two game connections. *)
Definition alice_two_devices : Player.t := Player.addGameSocket alice_online tablet.

(** A dictionary of sockets in which every socket is stored under its
    own id. *)
Definition well_keyed (m : gmap string Handle) : Prop :=
  forall k socket, m !! k = Some socket -> handle_id socket = k.

(** An event to send around. *)
Definition turn_event : Fanout.AnyEvent := Fanout.mkEvent "turn" None.

(** [n] heartbeat intervals in each of which the peer answers the ping. *)
Definition answered_rounds (n : nat) : list Socket.Event :=
  List.concat (List.repeat [Socket.tick; Socket.pong] n).

(** Requests for the game [a1] of [lobby] with the secret of [alice]
    and with a wrong secret. *)
Definition connect_alice : GameServer.URL.t :=
  GameServer.URL.mk (Some "a1") (Some "players") (Some "f1") (Some "connect")
                    (Some "secretA").

Definition wrong_secret : GameServer.URL.t :=
  GameServer.URL.mk (Some "a1") (Some "players") (Some "f1") (Some "connect")
                    (Some "guess").

(** A server with the public game [abandoned], which has room. *)
Definition open_lobby : GameServer.t unit :=
  GameServer.mk 500 600 {["b2" := abandoned]} ∅ Logger.new.

(** Requests to join [open_lobby]'s game and a game that does not
    exist, and a request for a private, protected game. *)
Definition join_b2 : Api.JoinRequest := Api.mkJoin "b2" (Some "bob") None.

Definition create_private : Api.CreateRequest unit :=
  Api.mkCreate None (Some true) None.

(** The two digits [padNumber] is expected to print. *)
Definition two_digits (n : nat) : string :=
  String (Clock.digit (n / 10)) (String (Clock.digit (n mod 10)) EmptyString).

(** * Properties *)

(** ** The secret generator *)

Lemma all_alphanumeric_append (a b : string) :
  Secret.all_alphanumeric (String.append a b)
  = Secret.all_alphanumeric a && Secret.all_alphanumeric b.
Proof.
  unfold Secret.all_alphanumeric.
  induction a as [|c a IH]; simpl; [reflexivity|].
  rewrite IH. apply andb_assoc.
Qed.

Lemma length_append (a b : string) :
  String.length (String.append a b) = (String.length a + String.length b)%nat.
Proof. induction a as [|c a IH]; simpl; [reflexivity | now rewrite IH]. Qed.

Lemma get_in_range (s : string) :
  forall n, (n < String.length s)%nat ->
    exists c, String.get n s = Some c /\ In c (list_ascii_of_string s).
Proof.
  induction s as [|a s IH]; intros n Hn; simpl in Hn; [lia|].
  destruct n as [|n]; simpl.
  - exists a. split; [reflexivity | now left].
  - destruct (IH n) as (c & Hget & Hin); [lia|].
    exists c. split; [exact Hget | now right].
Qed.

Lemma chars_alphanumeric : Secret.all_alphanumeric Secret.chars = true.
Proof. vm_compute. reflexivity. Qed.

(** Every index below 62 selects one alphanumeric character. *)
Lemma charAt_chars (i : Z) :
  0 <= i < 62 ->
  exists c, Secret.charAt Secret.chars i = String c EmptyString
            /\ Secret.alphanumeric c = true.
Proof.
  intros Hi. unfold Secret.charAt.
  destruct (Z.ltb_spec i 0) as [Hneg|_]; [lia|].
  destruct (get_in_range Secret.chars (Z.to_nat i)) as (c & Hget & Hin).
  { change (String.length Secret.chars) with 62%nat. lia. }
  exists c. rewrite Hget. split; [reflexivity|].
  pose proof chars_alphanumeric as Hall.
  unfold Secret.all_alphanumeric in Hall.
  rewrite forallb_forall in Hall. now apply Hall.
Qed.

(** The index the loop body computes from a draw in [0, 1). *)
Lemma floor_index (x : Q) :
  Secret.unit_interval x ->
  0 <= Qfloor (x * inject_Z Secret.chars_length) < 62.
Proof.
  intros [Hlo Hhi].
  change Secret.chars_length with 62.
  split.
  - change 0 with (Qfloor (inject_Z 0)) at 1.
    apply Qfloor_resp_le.
    change (inject_Z 0) with (0 * inject_Z 62)%Q.
    apply Qmult_le_compat_r; [assumption | discriminate].
  - apply Z.lt_nge. intros Hge.
    assert (H62 : (inject_Z 62 <= x * inject_Z 62)%Q).
    { eapply Qle_trans; [|apply Qfloor_le].
      rewrite <- Zle_Qle. exact Hge. }
    assert (Hlt : (x * inject_Z 62 < 1 * inject_Z 62)%Q).
    { apply Qmult_lt_compat_r; [reflexivity | assumption]. }
    rewrite Qmult_1_l in Hlt.
    exact (Qlt_not_le _ _ Hlt H62).
Qed.

Lemma body_spec (str : string) (r : Secret.Rng) :
  Secret.unit_interval (Secret.draws r (Secret.consumed r)) ->
  exists c,
    Secret.body str r
    = (String.append str (String c EmptyString),
       Secret.mkRng (Secret.draws r) (S (Secret.consumed r)))
    /\ Secret.alphanumeric c = true.
Proof.
  intros Hx.
  destruct (charAt_chars _ (floor_index _ Hx)) as (c & Hc & Halnum).
  exists c. split; [|exact Halnum].
  unfold Secret.body, Secret.Math_random. now rewrite Hc.
Qed.

Lemma loop_spec (n : nat) :
  forall (str : string) (r : Secret.Rng),
    (forall i, Secret.unit_interval (Secret.draws r i)) ->
    String.length (Secret.loop n str r).1 = (String.length str + n)%nat
    /\ Secret.all_alphanumeric (Secret.loop n str r).1
       = Secret.all_alphanumeric str
    /\ Secret.draws (Secret.loop n str r).2 = Secret.draws r
    /\ Secret.consumed (Secret.loop n str r).2 = (Secret.consumed r + n)%nat.
Proof.
  induction n as [|n IH]; intros str r Hr.
  - cbn [Secret.loop fst snd]. repeat split; lia.
  - cbn [Secret.loop].
    destruct (body_spec str r (Hr (Secret.consumed r))) as (c & -> & Halnum).
    match goal with
    | |- context [Secret.loop n ?s ?r'] =>
      destruct (IH s r') as (Hlen & Hall & Hdraws & Hpos); [exact Hr|]
    end.
    rewrite Hlen, Hall, Hdraws, Hpos.
    rewrite length_append, all_alphanumeric_append.
    cbn [String.length Secret.draws Secret.consumed].
    unfold Secret.all_alphanumeric at 2.
    cbn [list_ascii_of_string forallb]. rewrite Halnum.
    rewrite !andb_true_r.
    repeat split; lia.
Qed.

(** C9: for a non-negative [length] and a random source with values in
    [0, 1), [randomSecret(length)] returns a string of exactly [length]
    characters, all of them in [A-Za-z0-9]; the default length is 64;
    the only thing the call changes is the position in the random
    source, which advances by [length] draws. *)
Theorem randomSecret_length_alphabet (length : Z) (r : Secret.Rng) :
  0 <= length ->
  (forall i, Secret.unit_interval (Secret.draws r i)) ->
  Z.of_nat (String.length (Secret.randomSecret length r).1) = length
  /\ Secret.all_alphanumeric (Secret.randomSecret length r).1 = true
  /\ Secret.randomSecret_default r = Secret.randomSecret 64 r
  /\ Secret.draws (Secret.randomSecret length r).2 = Secret.draws r
  /\ Z.of_nat (Secret.consumed (Secret.randomSecret length r).2)
     = Z.of_nat (Secret.consumed r) + length.
Proof.
  intros Hlen Hr.
  destruct (loop_spec (Z.to_nat length) "" r Hr) as (H1 & H2 & H3 & H4).
  split; [|split; [|split; [|split]]].
  - unfold Secret.randomSecret. rewrite H1. cbn [String.length]. lia.
  - unfold Secret.randomSecret. rewrite H2. reflexivity.
  - reflexivity.
  - exact H3.
  - unfold Secret.randomSecret. rewrite H4. lia.
Qed.

Lemma randomSecret_length_alphabet_witness :
  Z.of_nat (String.length (Secret.randomSecret 3 half_rng).1) = 3
  /\ Secret.all_alphanumeric (Secret.randomSecret 3 half_rng).1 = true
  /\ Secret.randomSecret_default half_rng = Secret.randomSecret 64 half_rng
  /\ Secret.draws (Secret.randomSecret 3 half_rng).2 = Secret.draws half_rng
  /\ Z.of_nat (Secret.consumed (Secret.randomSecret 3 half_rng).2)
     = Z.of_nat (Secret.consumed half_rng) + 3.
Proof.
  apply (randomSecret_length_alphabet 3 half_rng).
  - lia.
  - intros i. split; [discriminate | reflexivity].
Defined.

(** ** Players *)

Lemma keys_length_0 {V : Type} (m : gmap string V) :
  Object_keys_length m = 0 <-> m = ∅.
Proof.
  unfold Object_keys_length. rewrite <- map_size_empty_iff. lia.
Qed.

Lemma calls_snoc (p : Player.t) (cs : list Player.Call) (c : Player.Call) :
  Player.calls p (cs ++ [c]) = Player.call (Player.calls p cs) c.
Proof. unfold Player.calls. now rewrite fold_left_app. Qed.

Lemma removeGameSocket_inactiveSince (p : Player.t) (socket : Handle) (now : Z) :
  Player.inactiveSince (Player.removeGameSocket p socket now)
  = if Player.active (Player.removeGameSocket p socket now)
    then Player.inactiveSince p else now.
Proof.
  unfold Player.active, Player.removeGameSocket. cbn.
  now destruct (Object_keys_length _ =? 0).
Qed.

Lemma addGameSocket_active (p : Player.t) (gameSocket : Handle) :
  Player.active (Player.addGameSocket p gameSocket) = true.
Proof.
  unfold Player.active, Player.addGameSocket. cbn.
  destruct (Z.eqb_spec (Object_keys_length
    (<[handle_id gameSocket := gameSocket]> (Player.gameSockets p))) 0) as [H0|]; [|reflexivity].
  apply keys_length_0 in H0. now apply insert_non_empty in H0.
Qed.

(** C2, as the code has it: [addGameSocket] registers the connection
    under the player and leaves [inactiveSince] as it was;
    [removeGameSocket] writes the time of the call into [inactiveSince]
    exactly when it leaves the player without a game connection.  So
    after any sequence of calls that ends in a call made at a nonzero
    time, a player who owns no game connection has a nonzero
    [inactiveSince]. *)
Theorem inactiveSince_after_calls
    (p : Player.t) (cs : list Player.Call) (c : Player.Call) :
  (forall socket now, c = Player.RemoveGameSocket socket now -> now <> 0) ->
  (forall gameSocket,
      Player.gameSockets (Player.addGameSocket p gameSocket) !! handle_id gameSocket
      = Some gameSocket
      /\ Player.inactiveSince (Player.addGameSocket p gameSocket)
         = Player.inactiveSince p)
  /\ (forall socket now,
         Player.inactiveSince (Player.removeGameSocket p socket now)
         = if Player.active (Player.removeGameSocket p socket now)
           then Player.inactiveSince p else now)
  /\ (Player.active (Player.calls p (cs ++ [c])) = false ->
      Player.inactiveSince (Player.calls p (cs ++ [c])) <> 0).
Proof.
  intros Hclock. split; [|split].
  - intros gameSocket. split; [|reflexivity].
    cbn. apply lookup_insert_eq.
  - intros socket now. apply removeGameSocket_inactiveSince.
  - rewrite calls_snoc. destruct c as [gameSocket|socket now]; cbn [Player.call].
    + rewrite addGameSocket_active. discriminate.
    + intros Hidle. rewrite removeGameSocket_inactiveSince, Hidle.
      now apply (Hclock socket now).
Qed.

Lemma inactiveSince_after_calls_witness :
  Player.inactiveSince
    (Player.calls alice ([Player.AddGameSocket phone]
                         ++ [Player.RemoveGameSocket phone 1000])) <> 0.
Proof.
  destruct (inactiveSince_after_calls alice [Player.AddGameSocket phone]
              (Player.RemoveGameSocket phone 1000)) as (_ & _ & Hidle).
  - intros socket now Heq. injection Heq as _ <-. lia.
  - apply Hidle. vm_compute. reflexivity.
Defined.

(** C2 as stated fails: a player whose only connection detached at time
    1000 and attached again owns a connection and still has
    [inactiveSince = 1000]; a new player owns no connection and has
    [inactiveSince = 0]. *)
Lemma inactiveSince_invariant_counterexample :
  let reconnected :=
    Player.calls alice [Player.AddGameSocket phone;
                        Player.RemoveGameSocket phone 1000;
                        Player.AddGameSocket phone] in
  Player.inactiveSince reconnected = 1000
  /\ Object_keys_length (Player.gameSockets reconnected) = 1
  /\ ~ (Player.inactiveSince reconnected <> 0
        <-> Object_keys_length (Player.gameSockets reconnected) = 0)
  /\ ~ (Player.inactiveSince alice <> 0
        <-> Object_keys_length (Player.gameSockets alice) = 0).
Proof.
  assert (H1 : Player.inactiveSince
                 (Player.calls alice [Player.AddGameSocket phone;
                                      Player.RemoveGameSocket phone 1000;
                                      Player.AddGameSocket phone]) = 1000)
    by (vm_compute; reflexivity).
  assert (H2 : Object_keys_length
                 (Player.gameSockets
                    (Player.calls alice [Player.AddGameSocket phone;
                                         Player.RemoveGameSocket phone 1000;
                                         Player.AddGameSocket phone])) = 1)
    by (vm_compute; reflexivity).
  assert (H3 : Object_keys_length (Player.gameSockets alice) = 0)
    by (vm_compute; reflexivity).
  cbv zeta. rewrite H1, H2, H3. cbn [Player.inactiveSince alice].
  repeat split; lia.
Qed.

(** C10: a [removeGameSocket] that leaves the player without a game
    connection sets [inactiveSince] to the time of the call, whether or
    not the socket was registered; a second notification for the same
    socket at a later time overwrites the timestamp again, and the player
    then counts as within the inactivity window of its game for as long
    as the later timestamp does. *)
Theorem removeGameSocket_overwrites
    (p : Player.t) (socket : Handle) (now later : Z) :
  Player.active (Player.removeGameSocket p socket now) = false ->
  Player.inactiveSince (Player.removeGameSocket p socket now) = now
  /\ Player.inactiveSince
       (Player.removeGameSocket (Player.removeGameSocket p socket now) socket later)
     = later
  /\ (Player.gameSockets p !! handle_id socket = None ->
      Player.gameSockets (Player.removeGameSocket p socket now) = Player.gameSockets p)
  /\ forall (Config : Type) (g : Game.t Config) (t : Z),
       Game.within_window g t
         (Player.removeGameSocket (Player.removeGameSocket p socket now) socket later)
       = (later >? t - Game.MAX_INACTIVE_TIME_MINUTES g * 60 * 1000).
Proof.
  intros Hidle.
  assert (Hempty : delete (handle_id socket) (Player.gameSockets p) = ∅).
  { unfold Player.active, Player.removeGameSocket in Hidle. cbn in Hidle.
    apply negb_false_iff, Z.eqb_eq in Hidle. now apply keys_length_0. }
  assert (Hagain : Player.active
            (Player.removeGameSocket (Player.removeGameSocket p socket now)
                                     socket later) = false).
  { unfold Player.active, Player.removeGameSocket. cbn.
    rewrite Hempty, delete_empty. reflexivity. }
  split; [|split; [|split]].
  - now rewrite removeGameSocket_inactiveSince, Hidle.
  - now rewrite removeGameSocket_inactiveSince, Hagain.
  - intros Hnone. cbn. now apply delete_id.
  - intros Config g t. unfold Game.within_window.
    rewrite Hagain, removeGameSocket_inactiveSince, Hagain. reflexivity.
Qed.

Lemma removeGameSocket_overwrites_witness :
  Player.inactiveSince (Player.removeGameSocket alice phone 1000) = 1000
  /\ Player.inactiveSince
       (Player.removeGameSocket (Player.removeGameSocket alice phone 1000) phone 2000)
     = 2000.
Proof.
  destruct (removeGameSocket_overwrites alice phone 1000 2000) as (H1 & H2 & _).
  - vm_compute. reflexivity.
  - split; [exact H1 | exact H2].
Defined.

(** ** Games *)

(** C6: in a game whose player count has reached [MAX_PLAYER_COUNT],
    [full()] is true and [addPlayer(username)] throws the capacity
    error; no player is created and the game, with its players and its
    player count, is as before. *)
Theorem addPlayer_full {Config : Type} (sub : Game.Subclass Config)
    (g : Game.t Config) (username uuid : string) (r : Secret.Rng) :
  Game.MAX_PLAYER_COUNT g <= Game.getPlayerCount g ->
  Game.full g = true
  /\ Game.addPlayer sub g username uuid r = (Throw "The game is full.", g, r)
  /\ Game.getPlayerCount (Game.addPlayer sub g username uuid r).1.2
     = Game.getPlayerCount g.
Proof.
  intros Hmax.
  assert (Hfull : Game.full g = true).
  { unfold Game.full. apply negb_true_iff, Z.ltb_ge. exact Hmax. }
  unfold Game.addPlayer. rewrite Hfull. repeat split.
Qed.

Lemma addPlayer_full_witness :
  Game.full solo = true
  /\ Game.addPlayer plain solo "bob" "f2" half_rng
     = (Throw "The game is full.", solo, half_rng)
  /\ Game.getPlayerCount (Game.addPlayer plain solo "bob" "f2" half_rng).1.2
     = Game.getPlayerCount solo.
Proof.
  apply (addPlayer_full plain solo "bob" "f2" half_rng).
  vm_compute. discriminate.
Defined.

(** [full()] says that the player count is at least the maximum. *)
Lemma full_iff {Config : Type} (g : Game.t Config) :
  Game.full g = true <-> Game.MAX_PLAYER_COUNT g <= Game.getPlayerCount g.
Proof. unfold Game.full. rewrite negb_true_iff, Z.ltb_ge. reflexivity. Qed.

(** The flag [active()] returns: some player is within the window. *)
Lemma active_loop_flag {Config : Type} (g : Game.t Config) (now : Z)
    (ps : list Player.t) :
  forall acc : bool * list Handle,
    (fold_left
       (fun (acc : bool * list Handle) (player : Player.t) =>
          if Game.within_window g now player then (true, acc.2)
          else (acc.1, acc.2 ++ Player.terminate player))
       ps acc).1
    = acc.1 || existsb (Game.within_window g now) ps.
Proof.
  induction ps as [|p ps IH]; intros acc; cbn [fold_left existsb].
  - now rewrite orb_false_r.
  - rewrite IH. destruct (Game.within_window g now p); cbn.
    + now rewrite orb_true_r.
    + reflexivity.
Qed.

Lemma active_exists {Config : Type} (g : Game.t Config) (now : Z) :
  Game.active g now
  = existsb (Game.within_window g now) (Object_values (Game.players g)).
Proof.
  unfold Game.active, Game.active_run, Game.active_loop.
  now rewrite active_loop_flag.
Qed.

(** ** The session registry: the inactivity sweep *)

Section Sweep.
Context {Config : Type}.
Implicit Types (s : GameServer.t Config) (g : Game.t Config).

Lemma deleteInactive_step_server (now : Z) (acc : GameServer.Sweep)
    (gameId : string) g :
  GameServer.server (GameServer.deleteInactive_step now acc (gameId, g))
  = if Game.active g now then GameServer.server acc
    else GameServer.set_privateGames
           (GameServer.set_publicGames (GameServer.server acc)
              (delete gameId (GameServer.publicGames (GameServer.server acc))))
           (delete gameId (GameServer.privateGames (GameServer.server acc))).
Proof.
  unfold GameServer.deleteInactive_step, Game.active.
  destruct (Game.active_run g now) as [[|] stale]; reflexivity.
Qed.

Lemma deleteInactive_fold (now : Z) (entries : list (string * Game.t Config)) :
  forall (acc : GameServer.Sweep) (k : string),
    let res := fold_left (GameServer.deleteInactive_step now) entries acc in
    GameServer.publicGames (GameServer.server res) !! k
    = (if swept now entries k then None
       else GameServer.publicGames (GameServer.server acc) !! k)
    /\ GameServer.privateGames (GameServer.server res) !! k
       = (if swept now entries k then None
          else GameServer.privateGames (GameServer.server acc) !! k).
Proof.
  induction entries as [|[gameId g] entries IH]; intros acc k; cbn zeta.
  - split; reflexivity.
  - cbn [fold_left swept existsb fst snd].
    destruct (IH (GameServer.deleteInactive_step now acc (gameId, g)) k)
      as [Hpub Hpriv].
    cbn zeta in Hpub, Hpriv. rewrite Hpub, Hpriv.
    fold (swept now entries k).
    rewrite deleteInactive_step_server.
    destruct (swept now entries k); [now rewrite orb_true_r|].
    rewrite orb_false_r.
    destruct (Game.active g now); cbn.
    + now rewrite andb_false_r.
    + rewrite andb_true_r. case_bool_decide as Hk.
      * subst k. now rewrite !lookup_delete_eq.
      * now rewrite !lookup_delete_ne.
Qed.

Lemma swept_entries (now : Z) (m : gmap string (Game.t Config)) (k : string) :
  swept now (Object_entries m) k
  = match m !! k with
    | Some g => negb (Game.active g now)
    | None => false
    end.
Proof.
  unfold swept, Object_entries.
  destruct (m !! k) as [g|] eqn:Hk.
  - destruct (Game.active g now) eqn:Hact; cbn.
    + apply not_true_is_false. intros Hex.
      apply existsb_exists in Hex as ([k' g'] & Hin & Hcond).
      cbn in Hcond. apply andb_true_iff in Hcond as [Heq Hinactive].
      apply bool_decide_eq_true in Heq. subst k'.
      apply list_elem_of_In, elem_of_map_to_list in Hin.
      rewrite Hk in Hin. injection Hin as <-.
      rewrite Hact in Hinactive. discriminate.
    + apply existsb_exists. exists (k, g). split.
      * apply list_elem_of_In, elem_of_map_to_list. exact Hk.
      * cbn. rewrite Hact. now rewrite bool_decide_eq_true_2.
  - apply not_true_is_false. intros Hex.
    apply existsb_exists in Hex as ([k' g'] & Hin & Hcond).
    cbn in Hcond. apply andb_true_iff in Hcond as [Heq _].
    apply bool_decide_eq_true in Heq. subst k'.
    apply list_elem_of_In, elem_of_map_to_list in Hin. congruence.
Qed.

(** X20: the sweep over the public games: a public game stays exactly
    when [active()] returns true for it. *)
Lemma deleteInactive_public s (now : Z) (k : string) :
  GameServer.publicGames (GameServer.server (GameServer.deleteInactive s now)) !! k
  = match GameServer.publicGames s !! k with
    | Some g => if Game.active g now then Some g else None
    | None => None
    end.
Proof.
  unfold GameServer.deleteInactive.
  destruct (deleteInactive_fold now (Object_entries (GameServer.publicGames s))
              (GameServer.mkSweep s [] []) k) as [Hpub _].
  cbn zeta in Hpub. rewrite Hpub, swept_entries. cbn.
  destruct (GameServer.publicGames s !! k) as [g|]; [|reflexivity].
  now destruct (Game.active g now).
Qed.

(** X21: the sweep and the private games: one is removed only when an
    inactive public game has the same id. *)
Lemma deleteInactive_private s (now : Z) (k : string) :
  GameServer.privateGames (GameServer.server (GameServer.deleteInactive s now)) !! k
  = match GameServer.publicGames s !! k with
    | Some g => if Game.active g now then GameServer.privateGames s !! k else None
    | None => GameServer.privateGames s !! k
    end.
Proof.
  unfold GameServer.deleteInactive.
  destruct (deleteInactive_fold now (Object_entries (GameServer.publicGames s))
              (GameServer.mkSweep s [] []) k) as [_ Hpriv].
  cbn zeta in Hpriv. rewrite Hpriv, swept_entries. cbn.
  destruct (GameServer.publicGames s !! k) as [g|]; [|reflexivity].
  now destruct (Game.active g now).
Qed.

End Sweep.

(** C3 on the code: the sweep does not visit the private games.  On a
    server whose only game is a private game without players, [active()]
    is false for that game and [deleteInactive()] deletes nothing; the
    game is still there afterwards. *)
Theorem deleteInactive_skips_private :
  Game.active abandoned 1000 = false
  /\ GameServer.deleteInactive stale_private 1000
     = GameServer.mkSweep stale_private [] []
  /\ GameServer.privateGames
       (GameServer.server (GameServer.deleteInactive stale_private 1000)) !! "b2"
     = Some abandoned.
Proof. vm_compute. repeat split. Qed.

(** ** The session registry: creating games *)

(** C1 on the code: [maxGamesCountReached()] adds the number of public
    games to itself.  A server for one game that holds one private game
    reports that the maximum is not reached and [createGame] adds a
    second game; a server for two games that holds one public game
    reports that the maximum is reached and [createGame] throws. *)
Theorem maxGamesCountReached_counts_public_twice :
  (GameServer.gamesCount one_private = GameServer.MAX_GAMES_COUNT one_private
   /\ GameServer.maxGamesCountReached one_private = false
   /\ exists result s' r',
        GameServer.createGame plain_factory one_private 1000 true false None
                              "c3" half_rng
        = (Return result, s', r')
        /\ GameServer.gamesCount s' = 2)
  /\ (GameServer.gamesCount one_public = 1
      /\ GameServer.MAX_GAMES_COUNT one_public = 2
      /\ GameServer.maxGamesCountReached one_public = true
      /\ GameServer.createGame plain_factory one_public 1000 true false None
                               "c3" half_rng
         = (Throw GameServer.capacity_message, one_public, half_rng)).
Proof.
  split.
  - split; [vm_compute; reflexivity|].
    split; [vm_compute; reflexivity|].
    eexists _, _, _. split; [vm_compute; reflexivity|].
    vm_compute. reflexivity.
  - repeat split; vm_compute; reflexivity.
Qed.

(** What [maxGamesCountReached()] computes. *)
Lemma maxGamesCountReached_iff {Config : Type} (s : GameServer.t Config) :
  GameServer.maxGamesCountReached s = true
  <-> 2 * Object_keys_length (GameServer.publicGames s)
      = GameServer.MAX_GAMES_COUNT s.
Proof. unfold GameServer.maxGamesCountReached. rewrite Z.eqb_eq. lia. Qed.

(** C7, as the code has it: a successful [createGame] returns the id of
    the game the factory built and that game's [secret] as the join
    secret, for a protected and for an unprotected game alike, and the
    game is stored under its id in the public or the private games. *)
Theorem createGame_result {Config : Type}
    (createGameFn : GameServer.CreateGameFn Config) (s s' : GameServer.t Config)
    (now : Z) (_public _protected : bool) (cfg : option Config)
    (uuid : string) (r r' : Secret.Rng) (result : GameServer.CreateGameResult) :
  GameServer.createGame createGameFn s now _public _protected cfg uuid r
  = (Return result, s', r') ->
  let game := (createGameFn _protected cfg uuid r).1 in
  GameServer.gameId result = Game.id game
  /\ GameServer.joinSecret result = Some (Game.secret game)
  /\ (if _public then GameServer.publicGames s' else GameServer.privateGames s')
     !! GameServer.gameId result = Some game.
Proof.
  unfold GameServer.createGame.
  destruct (GameServer.maxGamesCountReached _); [discriminate|].
  destruct (createGameFn _protected cfg uuid r) as [game r''].
  intros Heq. injection Heq as <- <- <-. cbn.
  repeat split.
  destruct _public; cbn; apply lookup_insert_eq.
Qed.

Lemma createGame_result_witness :
  exists result,
    GameServer.gameId result = "c3"
    /\ GameServer.joinSecret result
       = Some "ffffffffffffffffffffffffffffffffffffffffffffffffffffffffffffffff".
Proof.
  destruct (GameServer.createGame plain_factory lobby 1000 true false None
                                  "c3" half_rng) as [[c s'] r'] eqn:Hcall.
  destruct c as [result|err]; [|vm_compute in Hcall; discriminate].
  exists result.
  destruct (createGame_result plain_factory lobby s' 1000 true false None
                              "c3" half_rng r' result Hcall) as (Hid & Hsecret & _).
  split; [exact Hid | exact Hsecret].
Defined.

(** C7 as stated fails: [createGame] for an unprotected game succeeds
    and returns a join secret. *)
Lemma joinSecret_unprotected_counterexample :
  exists result s' r',
    GameServer.createGame plain_factory lobby 1000 true false None "c3" half_rng
    = (Return result, s', r')
    /\ GameServer.gameId result = "c3"
    /\ Game.protected (plain_factory false None "c3" half_rng).1 = false
    /\ is_Some (GameServer.joinSecret result)
    /\ ~ (is_Some (GameServer.joinSecret result) <-> false = true).
Proof.
  eexists _, _, _. split; [vm_compute; reflexivity|].
  cbn [GameServer.gameId GameServer.joinSecret].
  split; [reflexivity|]. split; [reflexivity|].
  split; [eexists; reflexivity|].
  intros [Hsecret _]. discriminate Hsecret. eexists; reflexivity.
Qed.

(** ** The session registry: connection upgrades *)

(** X23: the failures the handler does reject: without a game id, for
    an unknown game and for a wrong player secret the raw connection is
    destroyed and the server is unchanged. *)
Lemma route_upgrade_rejects {Config : Type} (s : GameServer.t Config)
    (u : GameServer.URL.t) (ws : Handle) :
  GameServer.truthy (GameServer.URL.gameId u) = false
  \/ (exists gameId, GameServer.URL.gameId u = Some gameId
                     /\ GameServer.getGame s gameId = None)
  \/ (exists gameId game playerId player playerSecret,
        GameServer.URL.gameId u = Some gameId
        /\ GameServer.truthy (Some gameId) = true
        /\ GameServer.getGame s gameId = Some game
        /\ GameServer.URL.route u = Some "players"
        /\ GameServer.URL.playerId u = Some playerId
        /\ GameServer.truthy (Some playerId) = true
        /\ GameServer.URL.playerSecret u = Some playerSecret
        /\ GameServer.truthy (Some playerSecret) = true
        /\ Game.getPlayer game playerId = Some player
        /\ Player.verifySecret player playerSecret = false) ->
  GameServer.route_upgrade s u ws = (Return tt, s, [GameServer.socket_destroy]).
Proof.
  unfold GameServer.route_upgrade.
  intros [Hfalsy | [(gameId & Hid & Hgame)
                   | (gameId & game & playerId & player & playerSecret & Hid & Htid
                      & Hgame & Hroute & Hpid & Htpid & Hsec & Htsec & Hplayer
                      & Hverify)]].
  - now rewrite Hfalsy.
  - rewrite Hid. destruct (GameServer.truthy (Some gameId)); [|reflexivity].
    now rewrite Hgame.
  - rewrite Hid, Htid, Hgame, Hroute, Hpid, Htpid, Hsec, Htsec.
    unfold Game.getPlayer in Hplayer. cbn. rewrite Hplayer, Hverify. cbn.
    repeat (case_bool_decide; try discriminate); [reflexivity | congruence].
Qed.

(** C5 on the code: for a player id that is not in the game the
    handler calls [verifySecret] on [undefined], which throws, and the
    raw connection is not destroyed; for a route, or a player route,
    that does not exist the handler returns without attaching and
    without destroying the connection. *)
Theorem upgrade_failures_not_rejected :
  GameServer.getGame lobby "a1" = Some solo
  /\ Game.getPlayer solo "ff" = None
  /\ GameServer.route_upgrade lobby unknown_player tablet
     = (Throw GameServer.type_error, lobby, [])
  /\ GameServer.route_upgrade lobby unknown_route tablet
     = (Return tt, lobby, [])
  /\ GameServer.route_upgrade lobby unknown_player_route tablet
     = (Return tt, lobby, [])
  /\ GameServer.handleUpgrade (fun _ => unknown_player) lobby
       (Some "/api/games/a1/players/ff/connect?player_secret=x") tablet
     = (Throw GameServer.type_error, lobby, []).
Proof. repeat split; vm_compute; reflexivity. Qed.

(** ** The heartbeat *)

Lemma notifications_app (a b : list Action) :
  Socket.notifications (a ++ b)
  = (Socket.notifications a + Socket.notifications b)%nat.
Proof.
  unfold Socket.notifications. now rewrite List.filter_app, List.length_app.
Qed.

Lemma pong_timeouts_app (a b : list Action) :
  Socket.pong_timeouts (a ++ b)
  = (Socket.pong_timeouts a + Socket.pong_timeouts b)%nat.
Proof.
  unfold Socket.pong_timeouts. now rewrite List.filter_app, List.length_app.
Qed.

Lemma step_invariant (s s' : Socket.t) (done actions : list Action)
    (e : Socket.Event) :
  lifecycle_invariant s done ->
  Socket.step s e = Some (s', actions) ->
  lifecycle_invariant s' (done ++ actions).
Proof.
  unfold lifecycle_invariant, Socket.step, Socket.enabled.
  rewrite notifications_app, pong_timeouts_app.
  destruct s as [sid hb alive timer st].
  destruct e, st, alive; cbn; intros [Htimer Hcount] Hstep;
    try discriminate Hstep; subst timer;
    try discriminate Hstep;
    injection Hstep as <- <-; cbn; (split; [reflexivity | lia]).
Qed.

Lemma run_invariant (events : list Socket.Event) :
  forall (s s' : Socket.t) (done actions : list Action),
    lifecycle_invariant s done ->
    Socket.run s done events = Some (s', actions) ->
    lifecycle_invariant s' actions.
Proof.
  induction events as [|e events IH]; intros s s' done actions Hinv Hrun;
    cbn in Hrun.
  - injection Hrun as <- <-. exact Hinv.
  - destruct (Socket.step s e) as [[s1 actions1]|] eqn:Hstep; [|discriminate].
    eapply IH; [|exact Hrun]. eapply step_invariant; eassumption.
Qed.

(** C4, as the code has it: over a lifetime that ends with the [close]
    event, [onDisconnect()] is called once by the [close] listener and
    once more by every heartbeat tick that finds no pong since the
    previous ping; it is called exactly once when there was no pong
    timeout, and the timer is cleared at the end. *)
Theorem onDisconnect_count (uuid : string) (heartbeatIntervalSeconds : Z)
    (events : list Socket.Event) (s : Socket.t) (actions : list Action) :
  Socket.run (Socket.new uuid heartbeatIntervalSeconds) [] events
  = Some (s, actions) ->
  Socket.readyState s = Socket.CLOSED ->
  Socket.notifications actions = S (Socket.pong_timeouts actions)
  /\ (Socket.pong_timeouts actions = 0%nat -> Socket.notifications actions = 1%nat)
  /\ Socket.heartbeatInterval s = false.
Proof.
  intros Hrun Hclosed.
  assert (Hinv : lifecycle_invariant s actions).
  { eapply run_invariant; [|exact Hrun]. split; reflexivity. }
  unfold lifecycle_invariant in Hinv. rewrite Hclosed in Hinv.
  destruct Hinv as [Htimer Hcount].
  repeat split; [exact Hcount | lia | exact Htimer].
Qed.

Lemma onDisconnect_count_witness :
  exists actions,
    Socket.notifications actions = S (Socket.pong_timeouts actions)
    /\ Socket.notifications actions = 1%nat.
Proof.
  destruct (Socket.run (Socket.new "c-1" 600) []
              [Socket.tick; Socket.pong; Socket.tick; Socket.close])
    as [[s actions]|] eqn:Hrun; [|vm_compute in Hrun; discriminate].
  exists actions.
  destruct (onDisconnect_count "c-1" 600
              [Socket.tick; Socket.pong; Socket.tick; Socket.close] s actions Hrun)
    as (Hcount & Honce & _).
  - vm_compute in Hrun. injection Hrun as <- _. reflexivity.
  - split; [exact Hcount|]. apply Honce.
    vm_compute in Hrun. injection Hrun as _ <-. reflexivity.
Defined.

(** C4 as stated fails: two ticks without a pong and the [close] event
    that follows the termination make two calls of [onDisconnect()]. *)
Lemma onDisconnect_twice_counterexample :
  exists s actions,
    Socket.run (Socket.new "c-1" 600) [] [Socket.tick; Socket.tick; Socket.close]
    = Some (s, actions)
    /\ Socket.readyState s = Socket.CLOSED
    /\ actions = [ws_ping phone; ws_terminate phone; on_disconnect phone;
                  ws_ping phone; on_disconnect phone; clear_interval phone]
    /\ Socket.notifications actions = 2%nat
    /\ Socket.notifications actions <> 1%nat.
Proof.
  eexists _, _. split; [vm_compute; reflexivity|].
  repeat split. vm_compute. discriminate.
Qed.

(** The player of a game socket over such a lifetime: the second
    notification moves [inactiveSince] from the time of the timeout to
    the time of the [close] event. *)
Lemma pong_timeout_moves_inactiveSince :
  GameSocket.lifetime (Socket.new "c-1" 600) alice_online
    [(1000, Socket.tick); (2000, Socket.tick)]
  = Some (Socket.mk phone 600 false true Socket.CLOSING,
          Player.removeGameSocket alice_online phone 2000)
  /\ GameSocket.lifetime (Socket.new "c-1" 600) alice_online
       [(1000, Socket.tick); (2000, Socket.tick); (2500, Socket.close)]
     = Some (Socket.mk phone 600 false false Socket.CLOSED,
             Player.removeGameSocket
               (Player.removeGameSocket alice_online phone 2000) phone 2500)
  /\ Player.inactiveSince
       (Player.removeGameSocket
          (Player.removeGameSocket alice_online phone 2000) phone 2500)
     = 2500.
Proof. repeat split. Qed.

(** ** Messages on a game socket *)

Lemma logger_error_actions (l : Logger.t) (text : string) (d : option JSON.t)
    (a : Action) :
  In a (Logger.error l text d) ->
  exists socket,
    In socket (Object_values (Logger.debugSockets l))
    /\ a = debug_send socket (mkDebugMessage ERROR text d).
Proof.
  unfold Logger.error, Logger.broadcastDebugMessage.
  intros Hin. apply in_map_iff in Hin as (socket & <- & Hsocket).
  exists socket. split; [exact Hsocket | reflexivity].
Qed.

(** C8, as the code has it: a malformed message (not parseable, not an
    object, or without a [name]) is answered with one error-severity
    debug message with a readable text, delivered to the debug observers
    of the player's logger and to nobody else; nothing is sent on the
    game connection, the connection is not terminated, [handleCommand] is
    not called and nothing is thrown.  A command with a truthy name that
    the template literal can turn into a string, as it can every string,
    and for which [handleCommand] returns [false], is passed to
    [handleCommand] and then reported as unknown through the same
    logger.  When the name cannot be turned into a string the wrapper
    only reports to [console.error]: nothing is logged and
    [handleCommand] is not called. *)
Theorem handleMessage_malformed
    (JSON_parse : string -> option JSON.t)
    (ToString : option JSON.t -> Completion string)
    (handleCommand : Player.t -> JSON.t -> Completion bool)
    (player : Player.t) (raw : string) :
  (GameSocket.malformed JSON_parse raw ->
   exists text d,
     (text = GameSocket.not_json_text \/ text = GameSocket.not_object_text
      \/ text = GameSocket.no_name_text)
     /\ GameSocket.handleMessage JSON_parse ToString handleCommand player raw
        = Logger.error (Player.logger player) text d
     /\ forall a,
          In a (GameSocket.handleMessage JSON_parse ToString handleCommand player raw) ->
          exists socket,
            In socket (Object_values (Logger.debugSockets (Player.logger player)))
            /\ a = debug_send socket (mkDebugMessage ERROR text d))
  /\ (forall command name text,
        JSON_parse raw = Some command ->
        JSON.typeof_object command = true ->
        JSON.get_name command = Return name ->
        JSON.truthy name = true ->
        Player.interpolate ToString name = Return text ->
        handleCommand player command = Return false ->
        GameSocket.handleMessage JSON_parse ToString handleCommand player raw
        = Logger.trace (Player.logger player) (Player.received_text text)
                       (Some (JSON.object [("command", command)]))
          ++ handle_command (Player.id player) command
             :: Logger.error (Player.logger player) (Player.unknown_text text)
                             (Some (JSON.object [("command", command)])))
  /\ (forall command text,
        JSON_parse raw = Some command ->
        JSON.typeof_object command = true ->
        JSON.get_name command = Return (Some (JSON.str text)) ->
        text <> "" ->
        handleCommand player command = Return false ->
        GameSocket.handleMessage JSON_parse ToString handleCommand player raw
        = Logger.trace (Player.logger player) (Player.received_text text)
                       (Some (JSON.object [("command", command)]))
          ++ handle_command (Player.id player) command
             :: Logger.error (Player.logger player) (Player.unknown_text text)
                             (Some (JSON.object [("command", command)])))
  /\ (forall command name err,
        JSON_parse raw = Some command ->
        JSON.typeof_object command = true ->
        JSON.get_name command = Return name ->
        JSON.truthy name = true ->
        Player.interpolate ToString name = Throw err ->
        GameSocket.handleMessage JSON_parse ToString handleCommand player raw
        = [console_error]).
Proof.
  split; [|split; [|split]].
  - intros Hbad.
    assert (Hcall : exists text d,
      (text = GameSocket.not_json_text \/ text = GameSocket.not_object_text
       \/ text = GameSocket.no_name_text)
      /\ GameSocket.handleMessage JSON_parse ToString handleCommand player raw
         = Logger.error (Player.logger player) text d).
    { unfold GameSocket.malformed in Hbad. unfold GameSocket.handleMessage.
      destruct (JSON_parse raw) as [[| b | q | text | items | fields]|]; cbn.
      - eexists _, _. split; [left; reflexivity | reflexivity].
      - eexists _, _. split; [right; left; reflexivity | reflexivity].
      - eexists _, _. split; [right; left; reflexivity | reflexivity].
      - eexists _, _. split; [right; left; reflexivity | reflexivity].
      - eexists _, _. split; [right; right; reflexivity | reflexivity].
      - rewrite Hbad. cbn.
        eexists _, _. split; [right; right; reflexivity | reflexivity].
      - eexists _, _. split; [left; reflexivity | reflexivity]. }
    destruct Hcall as (text & d & Htext & Hcall).
    exists text, d. split; [exact Htext|]. split; [exact Hcall|].
    intros a Hin. rewrite Hcall in Hin. now apply logger_error_actions.
  - intros command name text Hparse Hobject Hname Htruthy Htext Hunknown.
    unfold GameSocket.handleMessage, Player.handleCommandInternalWrapper.
    now rewrite Hparse, Hobject, Hname, Htruthy, Htext, Hunknown.
  - intros command text Hparse Hobject Hname Htext Hunknown.
    unfold GameSocket.handleMessage, Player.handleCommandInternalWrapper.
    rewrite Hparse, Hobject, Hname. cbn [JSON.truthy Player.interpolate].
    rewrite bool_decide_eq_false_2 by exact Htext. cbn [negb].
    now rewrite Hunknown.
  - intros command name err Hparse Hobject Hname Htruthy Hthrow.
    unfold GameSocket.handleMessage, Player.handleCommandInternalWrapper.
    now rewrite Hparse, Hobject, Hname, Htruthy, Hthrow.
Qed.

Lemma handleMessage_malformed_witness :
  GameSocket.handleMessage sample_parse sample_ToString no_commands alice_watched "{"
  = [debug_send observer
       (mkDebugMessage ERROR GameSocket.not_json_text (GameSocket.raw_message "{"))]
  /\ GameSocket.handleMessage sample_parse sample_ToString no_commands
       alice_watched move_raw
     = [debug_send observer
          (mkDebugMessage TRACE (Player.received_text "move")
             (Some (JSON.object [("command", move_command)])));
        handle_command "f1" move_command;
        debug_send observer
          (mkDebugMessage ERROR (Player.unknown_text "move")
             (Some (JSON.object [("command", move_command)])))]
  /\ GameSocket.handleMessage sample_parse sample_ToString no_commands
       alice_watched odd_raw
     = [console_error].
Proof.
  split; [|split].
  - destruct (handleMessage_malformed sample_parse sample_ToString no_commands
                alice_watched "{") as [Hbad _].
    destruct Hbad as (text & d & _ & Hcall & _); [vm_compute; exact I|].
    rewrite Hcall. vm_compute in Hcall. injection Hcall as <- <-.
    vm_compute. reflexivity.
  - destruct (handleMessage_malformed sample_parse sample_ToString no_commands
                alice_watched move_raw) as (_ & Hcommand & _).
    rewrite (Hcommand move_command (Some (JSON.str "move")) "move");
      vm_compute; reflexivity.
  - destruct (handleMessage_malformed sample_parse sample_ToString no_commands
                alice_watched odd_raw) as (_ & _ & _ & Hodd).
    apply (Hodd odd_command
                (Some (JSON.object [("toString", JSON.number (inject_Z 0))]))
                "TypeError: Cannot convert object to primitive value");
      vm_compute; reflexivity.
Defined.

(** C8 as stated fails: the answer to a message that is not parseable
    goes to the debug observer of the player; no event is sent on a game
    connection. *)
Lemma malformed_reply_counterexample :
  GameSocket.malformed sample_parse "{"
  /\ GameSocket.handleMessage sample_parse sample_ToString no_commands
       alice_watched "{"
     = [debug_send observer
          (mkDebugMessage ERROR GameSocket.not_json_text (GameSocket.raw_message "{"))]
  /\ ~ exists socket event,
         In (game_send socket event)
            (GameSocket.handleMessage sample_parse sample_ToString no_commands
               alice_watched "{").
Proof.
  assert (Hcall : GameSocket.handleMessage sample_parse sample_ToString no_commands
                    alice_watched "{"
                  = [debug_send observer
                       (mkDebugMessage ERROR GameSocket.not_json_text
                          (GameSocket.raw_message "{"))])
    by (vm_compute; reflexivity).
  split; [vm_compute; exact I|]. split; [exact Hcall|].
  rewrite Hcall. intros (socket & event & [Heq|[]]). discriminate Heq.
Qed.

(** * Further properties of the code *)

(** ** secret.ts *)

Lemma append_assoc (a b c : string) :
  String.append (String.append a b) c = String.append a (String.append b c).
Proof.
  induction a as [|x a IH]; [reflexivity|].
  change (String x (String.append (String.append a b) c)
          = String x (String.append a (String.append b c))).
  now rewrite IH.
Qed.

Lemma append_empty (a : string) : String.append a "" = a.
Proof.
  induction a as [|x a IH]; [reflexivity|].
  change (String x (String.append a "") = String x a). now rewrite IH.
Qed.

Lemma loop_prefix (n : nat) :
  forall (str : string) (r : Secret.Rng),
    Secret.loop n str r
    = (String.append str (Secret.loop n "" r).1, (Secret.loop n "" r).2).
Proof.
  induction n as [|n IH]; intros str r; cbn [Secret.loop].
  - cbn [fst snd]. now rewrite append_empty.
  - unfold Secret.body, Secret.Math_random.
    rewrite (IH (String.append str _)), (IH (String.append "" _)).
    cbn [fst snd]. rewrite append_assoc. reflexivity.
Qed.

Lemma loop_add (n m : nat) :
  forall (str : string) (r : Secret.Rng),
    Secret.loop (n + m) str r
    = Secret.loop m (Secret.loop n str r).1 (Secret.loop n str r).2.
Proof.
  induction n as [|n IH]; intros str r; cbn [Secret.loop Nat.add fst snd].
  - reflexivity.
  - destruct (Secret.body str r) as [str' r']. apply IH.
Qed.

(** X1: one call for [n + m] characters returns what a call for [n]
    characters followed by a call for [m] characters on the advanced
    random source return, concatenated, and leaves the source in the same
    state. *)
Theorem randomSecret_split (n m : Z) (r : Secret.Rng) :
  0 <= n -> 0 <= m ->
  Secret.randomSecret (n + m) r
  = (String.append (Secret.randomSecret n r).1
       (Secret.randomSecret m (Secret.randomSecret n r).2).1,
     (Secret.randomSecret m (Secret.randomSecret n r).2).2).
Proof.
  intros Hn Hm. unfold Secret.randomSecret.
  rewrite Z2Nat.inj_add by assumption.
  rewrite loop_add. apply loop_prefix.
Qed.

Lemma randomSecret_split_witness :
  Secret.randomSecret (2 + 3) half_rng
  = (String.append (Secret.randomSecret 2 half_rng).1
       (Secret.randomSecret 3 (Secret.randomSecret 2 half_rng).2).1,
     (Secret.randomSecret 3 (Secret.randomSecret 2 half_rng).2).2).
Proof. apply (randomSecret_split 2 3 half_rng); lia. Defined.

Lemma index_in_chars (c : ascii) :
  Secret.alphanumeric c = true ->
  (index_in c Secret.chars < 62)%nat
  /\ String.get (index_in c Secret.chars) Secret.chars = Some c.
Proof.
  destruct c as [[] [] [] [] [] [] [] []]; vm_compute; intros H;
    solve [discriminate H | split; [repeat constructor | reflexivity]].
Qed.

Lemma floor_of_index (k : nat) :
  Qfloor ((Z.of_nat k # 62) * inject_Z Secret.chars_length) = Z.of_nat k.
Proof.
  change Secret.chars_length with 62.
  unfold Qfloor, Qmult, inject_Z. cbn [Qnum Qden].
  change (Z.pos (62 * 1)) with 62. apply Z.div_mul. discriminate.
Qed.

(** X2: every character of [A-Za-z0-9] is produced: for each one there
    is a random source with values in [0, 1) on which [randomSecret(1)]
    returns exactly that character. *)
Theorem randomSecret_covers_alphabet (c : ascii) :
  Secret.alphanumeric c = true ->
  exists r : Secret.Rng,
    (forall i, Secret.unit_interval (Secret.draws r i))
    /\ (Secret.randomSecret 1 r).1 = String c EmptyString.
Proof.
  intros Hc. destruct (index_in_chars c Hc) as [Hlt Hget].
  exists (constant_rng (Z.of_nat (index_in c Secret.chars) # 62)). split.
  - intros i. cbn [constant_rng Secret.draws].
    split; [unfold Qle | unfold Qlt]; cbn [Qnum Qden]; lia.
  - unfold Secret.randomSecret. change (Z.to_nat 1) with 1%nat.
    cbn [Secret.loop]. unfold Secret.body, Secret.Math_random.
    cbn [constant_rng Secret.draws Secret.consumed fst snd].
    rewrite floor_of_index. unfold Secret.charAt.
    destruct (Z.ltb_spec (Z.of_nat (index_in c Secret.chars)) 0); [lia|].
    now rewrite Nat2Z.id, Hget.
Qed.

Lemma randomSecret_covers_alphabet_witness :
  exists r : Secret.Rng,
    (forall i, Secret.unit_interval (Secret.draws r i))
    /\ (Secret.randomSecret 1 r).1 = "q".
Proof.
  apply (randomSecret_covers_alphabet "q"%char). vm_compute. reflexivity.
Defined.

(** ** Constructors *)

Lemma randomSecret_default_spec (r : Secret.Rng) :
  (forall i, Secret.unit_interval (Secret.draws r i)) ->
  String.length (Secret.randomSecret_default r).1 = 64%nat
  /\ Secret.all_alphanumeric (Secret.randomSecret_default r).1 = true
  /\ Secret.consumed (Secret.randomSecret_default r).2
     = (Secret.consumed r + 64)%nat.
Proof.
  intros Hr. unfold Secret.randomSecret_default, Secret.randomSecret.
  change (Z.to_nat Secret.DEFAULT_LENGTH) with 64%nat.
  destruct (loop_spec 64 "" r Hr) as (H1 & H2 & _ & H4).
  rewrite H1, H2, H4. repeat split.
Qed.

(** X3: the constructors of [Player] and [Game] draw the secret with
    [randomSecret()]: on a random source with values in [0, 1) the
    secret of a new player and of a new game has 64 characters, all
    alphanumeric, [verifySecret] accepts that string and no other, and
    the source has advanced by 64 draws. *)
Theorem constructors_draw_secret {Config : Type} (sub : Game.Subclass Config)
    (_protected : bool) (cfg : option Config)
    (maxPlayerCount maxInactiveTimeMinutes : option Z)
    (uuid username : string) (r : Secret.Rng) :
  (forall i, Secret.unit_interval (Secret.draws r i)) ->
  let p := (Player.new uuid username r).1 in
  let g := (Game.new sub _protected cfg maxPlayerCount maxInactiveTimeMinutes
                     uuid r).1 in
  (String.length (Player.secret p) = 64%nat
   /\ Secret.all_alphanumeric (Player.secret p) = true
   /\ (forall candidate,
         Player.verifySecret p candidate = true <-> candidate = Player.secret p)
   /\ Secret.consumed (Player.new uuid username r).2
      = (Secret.consumed r + 64)%nat)
  /\ (String.length (Game.secret g) = 64%nat
      /\ Secret.all_alphanumeric (Game.secret g) = true
      /\ (forall candidate,
            Game.verifySecret g candidate = true <-> candidate = Game.secret g)
      /\ Secret.consumed
           (Game.new sub _protected cfg maxPlayerCount maxInactiveTimeMinutes
                     uuid r).2
         = (Secret.consumed r + 64)%nat).
Proof.
  intros Hr. destruct (randomSecret_default_spec r Hr) as (Hlen & Halnum & Hpos).
  unfold Player.new, Game.new, Player.verifySecret, Game.verifySecret.
  destruct (Secret.randomSecret_default r) as [sec r']. cbn in *.
  repeat split; try assumption;
    try (intros Hv; apply bool_decide_eq_true in Hv; congruence);
    intros ->; now apply bool_decide_eq_true.
Qed.

Lemma constructors_draw_secret_witness :
  String.length (Player.secret (Player.new "f2" "bob" half_rng).1) = 64%nat
  /\ String.length
       (Game.secret (Game.new plain true None None None "c3" half_rng).1) = 64%nat.
Proof.
  destruct (constructors_draw_secret plain true None None None "c3" "bob" half_rng)
    as [_ (Hg & _)].
  { intros i. split; [discriminate | reflexivity]. }
  destruct (constructors_draw_secret plain true None None None "f2" "bob" half_rng)
    as [(Hp & _) _].
  { intros i. split; [discriminate | reflexivity]. }
  split; [exact Hp | exact Hg].
Defined.

(** X4: a game is constructed with a maximum player count of at least
    1 (6 when the argument is omitted or 0) and a nonzero inactivity
    window (10 minutes by default); it has no players, is not full, can
    be joined, keeps the protection flag, and [active()] is false for it
    at every time. *)
Theorem new_game_state {Config : Type} (sub : Game.Subclass Config)
    (_protected : bool) (cfg : option Config)
    (maxPlayerCount maxInactiveTimeMinutes : option Z)
    (uuid : string) (r : Secret.Rng) :
  let g := (Game.new sub _protected cfg maxPlayerCount maxInactiveTimeMinutes
                     uuid r).1 in
  1 <= Game.MAX_PLAYER_COUNT g
  /\ Game.MAX_PLAYER_COUNT g
     = (if default 0 maxPlayerCount =? 0 then 6
        else Z.max (default 0 maxPlayerCount) 1)
  /\ Game.MAX_INACTIVE_TIME_MINUTES g
     = (if default 0 maxInactiveTimeMinutes =? 0 then 10
        else default 0 maxInactiveTimeMinutes)
  /\ Game.MAX_INACTIVE_TIME_MINUTES g <> 0
  /\ Game.id g = uuid
  /\ Game.protected g = _protected
  /\ Game.getPlayerCount g = 0
  /\ Game.full g = false
  /\ Game.joinable g = true
  /\ forall now, Game.active g now = false.
Proof.
  unfold Game.new. destruct (Secret.randomSecret_default r) as [sec r'].
  cbn zeta. cbn [fst].
  unfold Game.full, Game.getPlayerCount, Game.joinable, Game.active,
    Game.active_run, Object_values, Object_keys_length.
  cbn [Game.MAX_PLAYER_COUNT Game.MAX_INACTIVE_TIME_MINUTES Game.id
       Game.protected Game.players Game.joiningAllowed].
  rewrite map_size_empty, map_to_list_empty.
  unfold Game.DEFAULT_MAX_PLAYER_COUNT, Game.DEFAULT_MAX_INACTIVE_MINUTES.
  destruct maxPlayerCount as [n|], maxInactiveTimeMinutes as [m|]; cbn [default];
    repeat match goal with
           | |- context [?x =? 0] => destruct (Z.eqb_spec x 0)
           end;
    repeat split; try reflexivity; try lia;
    try (apply negb_false_iff, Z.ltb_lt; lia).
Qed.

(** ** player.ts *)

Lemma in_Object_values {V : Type} (m : gmap string V) (v : V) :
  In v (Object_values m) <-> exists k, m !! k = Some v.
Proof.
  unfold Object_values. rewrite <- list_elem_of_In, list_elem_of_fmap. split.
  - intros ([k v'] & -> & Hin). exists k. now apply elem_of_map_to_list.
  - intros (k & Hk). exists (k, v). split; [reflexivity|].
    now apply elem_of_map_to_list.
Qed.

Lemma length_Object_values {V : Type} (m : gmap string V) :
  length (Object_values m) = size m.
Proof. unfold Object_values. now rewrite length_fmap, length_map_to_list. Qed.

(** X5: attaching a game socket that was not registered and detaching
    it again gives back the player's socket dictionary; the player is as
    before, except that [inactiveSince] is the time of the detachment
    when no other game socket is left. *)
Theorem add_remove_game_socket (p : Player.t) (socket : Handle) (now : Z) :
  Player.gameSockets p !! handle_id socket = None ->
  Player.removeGameSocket (Player.addGameSocket p socket) socket now
  = Player.mk (Player.id p) (Player.username p) (Player.secret p)
              (Player.gameSockets p) (Player.debugSockets p)
              (if Player.active p then Player.inactiveSince p else now)
              (Player.logger p).
Proof.
  intros Hnew. unfold Player.removeGameSocket, Player.addGameSocket, Player.active.
  cbn. rewrite delete_insert_id by exact Hnew.
  now destruct (Object_keys_length (Player.gameSockets p) =? 0).
Qed.

Lemma add_remove_game_socket_witness :
  Player.removeGameSocket (Player.addGameSocket alice_online tablet) tablet 3000
  = alice_online.
Proof.
  rewrite (add_remove_game_socket alice_online tablet 3000).
  - vm_compute. reflexivity.
  - vm_compute. reflexivity.
Defined.

(** X6: while another game socket stays registered, detaching a socket
    keeps the player active, leaves [inactiveSince] untouched and keeps
    the other socket registered. *)
Theorem remove_one_of_many (p : Player.t) (socket other : Handle)
    (k : string) (now : Z) :
  k <> handle_id socket ->
  Player.gameSockets p !! k = Some other ->
  Player.active (Player.removeGameSocket p socket now) = true
  /\ Player.inactiveSince (Player.removeGameSocket p socket now)
     = Player.inactiveSince p
  /\ Player.gameSockets (Player.removeGameSocket p socket now) !! k = Some other
  /\ Player.gameSockets (Player.removeGameSocket p socket now) !! handle_id socket
     = None.
Proof.
  intros Hne Hother.
  assert (Hkept : delete (handle_id socket) (Player.gameSockets p) !! k = Some other)
    by now rewrite lookup_delete_ne.
  assert (Hactive : Player.active (Player.removeGameSocket p socket now) = true).
  { unfold Player.active, Player.removeGameSocket. cbn.
    apply negb_true_iff, Z.eqb_neq. intros H0. apply keys_length_0 in H0.
    rewrite H0, lookup_empty in Hkept. discriminate. }
  split; [exact Hactive|]. split.
  - now rewrite removeGameSocket_inactiveSince, Hactive.
  - split; [exact Hkept|]. cbn. apply lookup_delete_eq.
Qed.

Lemma remove_one_of_many_witness :
  Player.active (Player.removeGameSocket alice_two_devices tablet 3000) = true
  /\ Player.inactiveSince (Player.removeGameSocket alice_two_devices tablet 3000) = 0.
Proof.
  destruct (remove_one_of_many alice_two_devices tablet phone "c-1" 3000)
    as (Hactive & Hsince & _).
  - vm_compute. discriminate.
  - vm_compute. reflexivity.
  - split; [exact Hactive | exact Hsince].
Defined.

(** X7: [Player.terminate()] terminates exactly the sockets registered
    with the player, as game sockets or as debug sockets, and
    [Game.terminate()] terminates exactly the sockets its players
    terminate; the spectators of the game are not among them unless a
    player holds the same socket. *)
Theorem terminate_covers {Config : Type} (g : Game.t Config) (p : Player.t)
    (socket : Handle) :
  (In socket (Player.terminate p)
   <-> (exists k, Player.gameSockets p !! k = Some socket)
       \/ (exists k, Player.debugSockets p !! k = Some socket))
  /\ (In socket (Game.terminate g)
      <-> exists playerId player,
            Game.players g !! playerId = Some player
            /\ ((exists k, Player.gameSockets player !! k = Some socket)
                \/ (exists k, Player.debugSockets player !! k = Some socket))).
Proof.
  assert (Hplayer : forall q : Player.t,
             In socket (Player.terminate q)
             <-> (exists k, Player.gameSockets q !! k = Some socket)
                 \/ (exists k, Player.debugSockets q !! k = Some socket)).
  { intros q. unfold Player.terminate.
    rewrite in_app_iff, !in_Object_values. reflexivity. }
  split; [apply Hplayer|].
  unfold Game.terminate. rewrite in_flat_map. split.
  - intros (player & Hin & Hterm). apply in_Object_values in Hin as [pid Hpid].
    exists pid, player. split; [exact Hpid | now apply Hplayer].
  - intros (pid & player & Hpid & Hterm). exists player. split.
    + apply in_Object_values. now exists pid.
    + now apply Hplayer.
Qed.

Lemma broadcast_in (l : Logger.t) (m : DebugMessage) (a : Action) :
  In a (Logger.broadcastDebugMessage l m)
  <-> exists k socket, Logger.debugSockets l !! k = Some socket
                       /\ a = debug_send socket m.
Proof.
  unfold Logger.broadcastDebugMessage. rewrite in_map_iff. split.
  - intros (socket & <- & Hin). apply in_Object_values in Hin as [k Hk].
    now exists k, socket.
  - intros (k & socket & Hk & ->). exists socket. split; [reflexivity|].
    apply in_Object_values. now exists k.
Qed.

Lemma broadcast_no_game_send (l : Logger.t) (m : DebugMessage) :
  List.filter is_game_send (Logger.broadcastDebugMessage l m) = [].
Proof.
  unfold Logger.broadcastDebugMessage.
  induction (Object_values (Logger.debugSockets l)) as [|x xs IH];
    [reflexivity | exact IH].
Qed.

Lemma sends_in (sockets : list Handle) (ev : JSON.t) (a : Action) :
  In a (flat_map (fun socket => GameSocket.send socket ev) sockets)
  <-> exists socket, In socket sockets /\ a = game_send socket ev.
Proof.
  rewrite in_flat_map. split.
  - intros (socket & Hin & [<-|[]]). now exists socket.
  - intros (socket & Hin & ->). exists socket. split; [exact Hin | now left].
Qed.

Lemma sendEvent_sockets (p : Player.t) (event : Fanout.AnyEvent)
    (socket : Handle) (ev : JSON.t) :
  In (game_send socket ev) (Fanout.sendEvent p event)
  <-> (exists k, Player.gameSockets p !! k = Some socket)
      /\ ev = Fanout.payload event.
Proof.
  unfold Fanout.sendEvent, Logger.trace.
  rewrite in_app_iff, sends_in, broadcast_in. split.
  - intros [(socket' & Hin & Heq) | (k & socket' & _ & Heq)];
      [|discriminate Heq].
    injection Heq as -> ->. split; [|reflexivity].
    now apply in_Object_values.
  - intros [Hk ->]. left. exists socket. split; [|reflexivity].
    now apply in_Object_values.
Qed.

(** X8: [Player.sendEvent(event)] sends the event to the game sockets
    registered with the player and to no other game socket, once per
    registered socket. *)
Theorem sendEvent_fanout (p : Player.t) (event : Fanout.AnyEvent) :
  (forall socket ev,
      In (game_send socket ev) (Fanout.sendEvent p event)
      <-> (exists k, Player.gameSockets p !! k = Some socket)
          /\ ev = Fanout.payload event)
  /\ length (List.filter is_game_send (Fanout.sendEvent p event))
     = size (Player.gameSockets p).
Proof.
  split; [intros socket ev; apply sendEvent_sockets|].
  unfold Fanout.sendEvent, Logger.trace.
  rewrite List.filter_app, broadcast_no_game_send, app_nil_r.
  rewrite <- length_Object_values.
  induction (Object_values (Player.gameSockets p)) as [|x xs IH];
    [reflexivity | cbn; now rewrite IH].
Qed.

(** ** logger.ts *)

Lemma well_keyed_insert (m : gmap string Handle) (socket : Handle) :
  well_keyed m -> well_keyed (<[handle_id socket := socket]> m).
Proof.
  intros Hm k h. rewrite lookup_insert_Some.
  intros [[<- <-] | [_ Hk]]; [reflexivity | now apply Hm].
Qed.

Lemma well_keyed_delete (m : gmap string Handle) (k : string) :
  well_keyed m -> well_keyed (delete k m).
Proof.
  intros Hm k' h. rewrite lookup_delete_Some. intros [_ Hk]. now apply Hm.
Qed.

(** X9: a debug message is delivered once to each debug socket of the
    logger.  A socket that is added receives it; a socket that is removed
    does not receive it any more (in a logger whose sockets are stored
    under their ids, which adding and removing preserve); the delivery to
    the other sockets is unaffected. *)
Theorem logger_membership (l : Logger.t) (socket : Handle) (m : DebugMessage) :
  well_keyed (Logger.debugSockets l) ->
  length (Logger.broadcastDebugMessage l m) = size (Logger.debugSockets l)
  /\ In (debug_send socket m)
        (Logger.broadcastDebugMessage (Logger.addDebugSocket l socket) m)
  /\ ~ In (debug_send socket m)
          (Logger.broadcastDebugMessage (Logger.removeDebugSocket l socket) m)
  /\ well_keyed (Logger.debugSockets (Logger.addDebugSocket l socket))
  /\ well_keyed (Logger.debugSockets (Logger.removeDebugSocket l socket))
  /\ forall other,
       handle_id other <> handle_id socket ->
       (In (debug_send other m)
           (Logger.broadcastDebugMessage (Logger.addDebugSocket l socket) m)
        <-> In (debug_send other m) (Logger.broadcastDebugMessage l m))
       /\ (In (debug_send other m)
              (Logger.broadcastDebugMessage (Logger.removeDebugSocket l socket) m)
           <-> In (debug_send other m) (Logger.broadcastDebugMessage l m)).
Proof.
  intros Hkeys. split; [|split; [|split; [|split; [|split]]]].
  - unfold Logger.broadcastDebugMessage.
    now rewrite List.length_map, length_Object_values.
  - apply broadcast_in. exists (handle_id socket), socket.
    split; [apply lookup_insert_eq | reflexivity].
  - rewrite broadcast_in. intros (k & socket' & Hk & Heq).
    injection Heq as <-. cbn in Hk. apply lookup_delete_Some in Hk as [Hne Hk].
    apply Hkeys in Hk. congruence.
  - now apply well_keyed_insert.
  - now apply well_keyed_delete.
  - intros other Hne. rewrite !broadcast_in. cbn. split; split.
    + intros (k & h & Hk & Heq). injection Heq as <-.
      apply lookup_insert_Some in Hk as [[_ <-] | [_ Hk]]; [congruence|].
      now exists k, other.
    + intros (k & h & Hk & Heq). injection Heq as <-.
      exists k, other. split; [|reflexivity].
      rewrite lookup_insert_ne; [exact Hk|].
      intros <-. apply Hkeys in Hk. congruence.
    + intros (k & h & Hk & Heq). injection Heq as <-.
      apply lookup_delete_Some in Hk as [_ Hk]. now exists k, other.
    + intros (k & h & Hk & Heq). injection Heq as <-.
      exists k, other. split; [|reflexivity].
      rewrite lookup_delete_ne; [exact Hk|].
      intros <-. apply Hkeys in Hk. congruence.
Qed.

Lemma logger_membership_witness :
  In (debug_send observer (mkDebugMessage INFO "hello" None))
     (Logger.broadcastDebugMessage (Logger.addDebugSocket Logger.new observer)
        (mkDebugMessage INFO "hello" None))
  /\ ~ In (debug_send observer (mkDebugMessage INFO "hello" None))
          (Logger.broadcastDebugMessage
             (Logger.removeDebugSocket Logger.new observer)
             (mkDebugMessage INFO "hello" None)).
Proof.
  destruct (logger_membership Logger.new observer (mkDebugMessage INFO "hello" None))
    as (_ & Hadd & Hremove & _).
  - intros k h Hk. cbn in Hk. rewrite lookup_empty in Hk. discriminate.
  - split; [exact Hadd | exact Hremove].
Defined.

(** ** game.ts: broadcasts *)

(** X10: [Game.broadcastEvent(event, ...omitPlayersById)] delivers the
    event to every spectator of the game whatever the list of omitted
    players is, and to a game socket exactly when it belongs to a player
    of the game whose id is not in that list. *)
Theorem broadcastEvent_delivery {Config : Type} (g : Game.t Config)
    (event : Fanout.AnyEvent) (omitPlayersById : list string) :
  (forall spectator ev,
      In (Fanout.spectator_send spectator ev)
         (Fanout.broadcastEvent g event omitPlayersById)
      <-> (exists k, Game.spectators g !! k = Some spectator)
          /\ ev = Fanout.payload event)
  /\ (forall socket ev,
        In (Fanout.action (game_send socket ev))
           (Fanout.broadcastEvent g event omitPlayersById)
        <-> exists playerId player k,
              Game.players g !! playerId = Some player
              /\ ~ In playerId omitPlayersById
              /\ Player.gameSockets player !! k = Some socket
              /\ ev = Fanout.payload event).
Proof.
  unfold Fanout.broadcastEvent. split.
  - intros spectator ev. rewrite !in_app_iff. split.
    + intros [Hlog | [Hplayers | Hspectators]].
      * apply in_map_iff in Hlog as (a & Heq & _). discriminate Heq.
      * apply in_flat_map in Hplayers as ([playerId player] & _ & Hin).
        unfold Fanout.broadcast_player in Hin.
        destruct (bool_decide _); [destruct Hin|].
        apply in_map_iff in Hin as (a & Heq & _). discriminate Heq.
      * apply in_flat_map in Hspectators as (h & Hin & [Heq|[]]).
        injection Heq as -> ->. split; [|reflexivity].
        now apply in_Object_values.
    + intros [Hk ->]. right; right. apply in_flat_map.
      exists spectator. split; [now apply in_Object_values | now left].
  - intros socket ev. rewrite !in_app_iff. split.
    + intros [Hlog | [Hplayers | Hspectators]].
      * apply in_map_iff in Hlog as (a & Heq & Hin). injection Heq as ->.
        apply broadcast_in in Hin as (k & h & _ & Heq). discriminate Heq.
      * apply in_flat_map in Hplayers as ([playerId player] & Hentry & Hin).
        unfold Fanout.broadcast_player in Hin. cbn [fst snd] in Hin.
        case_bool_decide as Homit; [destruct Hin|].
        apply in_map_iff in Hin as (a & Heq & Hin). injection Heq as ->.
        apply (proj1 (sendEvent_sockets player event socket ev)) in Hin
          as [[k Hk] ->].
        exists playerId, player, k. repeat split; try assumption.
        -- unfold Object_entries in Hentry.
           now apply list_elem_of_In, elem_of_map_to_list in Hentry.
        -- intros Hin. apply Homit. now apply list_elem_of_In.
      * apply in_flat_map in Hspectators as (h & _ & [Heq|[]]). discriminate Heq.
    + intros (playerId & player & k & Hplayer & Homit & Hk & ->).
      right; left. apply in_flat_map. exists (playerId, player). split.
      * unfold Object_entries. now apply list_elem_of_In, elem_of_map_to_list.
      * unfold Fanout.broadcast_player. cbn [fst snd].
        case_bool_decide as Hin; [exfalso; apply Homit; now apply list_elem_of_In|].
        apply in_map. apply sendEvent_sockets. split; [now exists k | reflexivity].
Qed.

(** ** socket.ts and game-socket.ts *)

Lemma run_answered_rounds (s : Socket.t) (n : nat) :
  Socket.connectionAlive s = true ->
  Socket.heartbeatInterval s = true ->
  Socket.readyState s = Socket.OPEN ->
  forall done,
    Socket.run s done (answered_rounds n)
    = Some (s, done ++ List.repeat (ws_ping (Socket.id s)) n).
Proof.
  intros Halive Htimer Hopen. destruct s as [sid hb alive timer st].
  cbn in Halive, Htimer, Hopen. subst alive timer st.
  induction n as [|n IH]; intros done.
  - cbn. now rewrite app_nil_r.
  - unfold answered_rounds in *. cbn [List.repeat List.concat app Socket.run].
    unfold Socket.step. cbn. rewrite app_nil_r.
    rewrite IH. cbn. now rewrite <- app_assoc.
Qed.

(** X11: a peer that answers every ping with a pong is never
    terminated: after any number of heartbeat intervals with a pong in
    each, the socket is in the state it started in, open and alive, every
    interval has sent one ping, and neither [terminate()] nor
    [onDisconnect()] was called. *)
Theorem answered_heartbeats (uuid : string) (heartbeatIntervalSeconds : Z)
    (n : nat) :
  Socket.run (Socket.new uuid heartbeatIntervalSeconds) [] (answered_rounds n)
  = Some (Socket.new uuid heartbeatIntervalSeconds,
          List.repeat (ws_ping (handle uuid)) n)
  /\ Socket.pong_timeouts (List.repeat (ws_ping (handle uuid)) n) = 0%nat
  /\ Socket.notifications (List.repeat (ws_ping (handle uuid)) n) = 0%nat.
Proof.
  split; [|split].
  - now rewrite run_answered_rounds.
  - unfold Socket.pong_timeouts. induction n; [reflexivity | exact IHn].
  - unfold Socket.notifications. induction n; [reflexivity | exact IHn].
Qed.

(** X12: a peer that lets one whole interval pass without a pong is
    terminated: whatever the state of a socket with an armed timer, two
    consecutive ticks call [terminate()] on the websocket and
    [onDisconnect()], and leave the socket not open and not alive. *)
Theorem missed_heartbeat (s : Socket.t) (done : list Action) :
  Socket.heartbeatInterval s = true ->
  exists s' actions,
    Socket.run s done [Socket.tick; Socket.tick] = Some (s', done ++ actions)
    /\ In (ws_terminate (Socket.id s)) actions
    /\ In (on_disconnect (Socket.id s)) actions
    /\ Socket.readyState s' <> Socket.OPEN
    /\ Socket.connectionAlive s' = false.
Proof.
  intros Htimer. destruct s as [sid hb alive timer st]. cbn in Htimer. subst timer.
  destruct alive; cbn; unfold Socket.step; cbn; rewrite <- app_assoc;
    eexists _, _; (split; [reflexivity|]); cbn;
    (repeat split; [tauto | tauto | now destruct st]).
Qed.

Lemma missed_heartbeat_witness :
  exists s' actions,
    Socket.run (Socket.new "c-1" 600) [] [Socket.tick; Socket.tick]
    = Some (s', [] ++ actions)
    /\ In (ws_terminate phone) actions
    /\ In (on_disconnect phone) actions
    /\ Socket.readyState s' <> Socket.OPEN
    /\ Socket.connectionAlive s' = false.
Proof. apply (missed_heartbeat (Socket.new "c-1" 600) []). reflexivity. Defined.

Lemma notify_gameSockets (self : Handle) (now : Z) (actions : list Action) :
  forall p : Player.t,
    Player.gameSockets (GameSocket.notify self now p actions)
    = (if existsb Socket.is_on_disconnect actions
       then delete (handle_id self) (Player.gameSockets p)
       else Player.gameSockets p)
    /\ Player.debugSockets (GameSocket.notify self now p actions)
       = Player.debugSockets p
    /\ Player.secret (GameSocket.notify self now p actions) = Player.secret p.
Proof.
  unfold GameSocket.notify.
  induction actions as [|a actions IH]; intros p; cbn [fold_left existsb].
  - repeat split.
  - destruct (IH (if Socket.is_on_disconnect a
                  then GameSocket.onDisconnect self p now else p))
      as (Hgame & Hdebug & Hsecret).
    rewrite Hgame, Hdebug, Hsecret.
    destruct (Socket.is_on_disconnect a); cbn; [|repeat split].
    rewrite delete_delete_eq. now destruct (existsb _ _).
Qed.

Lemma step_closes (s s' : Socket.t) (e : Socket.Event) (actions : list Action) :
  Socket.step s e = Some (s', actions) ->
  Socket.id s' = Socket.id s
  /\ (Socket.readyState s' = Socket.CLOSED ->
      Socket.readyState s <> Socket.CLOSED ->
      existsb Socket.is_on_disconnect actions = true).
Proof.
  unfold Socket.step, Socket.enabled.
  destruct s as [sid hb alive timer st].
  destruct e, st, alive, timer; cbn; intros Hstep;
    try discriminate Hstep; injection Hstep as <- <-; cbn;
    (split; [reflexivity|]); intros Hclosed Hopen;
    solve [reflexivity | discriminate Hclosed | now destruct Hopen].
Qed.

Lemma lifetime_sockets (events : list (Z * Socket.Event)) :
  forall (s s' : Socket.t) (p p' : Player.t),
    GameSocket.lifetime s p events = Some (s', p') ->
    (Player.gameSockets p' = Player.gameSockets p
     \/ Player.gameSockets p'
        = delete (handle_id (Socket.id s)) (Player.gameSockets p))
    /\ (Socket.readyState s' = Socket.CLOSED ->
        Socket.readyState s <> Socket.CLOSED ->
        Player.gameSockets p'
        = delete (handle_id (Socket.id s)) (Player.gameSockets p))
    /\ Player.debugSockets p' = Player.debugSockets p
    /\ Player.secret p' = Player.secret p.
Proof.
  induction events as [|[now e] events IH]; intros s s' p p' Hrun;
    cbn [GameSocket.lifetime] in Hrun.
  - injection Hrun as <- <-. repeat split; [now left | congruence].
  - destruct (Socket.step s e) as [[s1 actions]|] eqn:Hstep; [|discriminate].
    destruct (step_closes _ _ _ _ Hstep) as [Hid Hclose].
    destruct (notify_gameSockets (Socket.id s) now actions p)
      as (Hgame & Hdebug & Hsecret).
    destruct (IH _ _ _ _ Hrun) as (Hsome & Hclosed & Hdebug' & Hsecret').
    rewrite Hid, Hgame in Hsome, Hclosed. rewrite Hdebug', Hsecret', Hdebug, Hsecret.
    split; [|split; [|split; reflexivity]].
    + destruct (existsb Socket.is_on_disconnect actions);
        rewrite ?delete_delete_eq in Hsome; tauto.
    + intros Hend Hstart.
      assert (Hcases : Socket.readyState s1 = Socket.CLOSED
                       \/ Socket.readyState s1 <> Socket.CLOSED)
        by (destruct (Socket.readyState s1); (now left) || (now right)).
      destruct Hcases as [Hs1|Hs1].
      * rewrite (Hclose Hs1 Hstart) in Hsome.
        rewrite delete_delete_eq in Hsome. tauto.
      * specialize (Hclosed Hend Hs1).
        destruct (existsb Socket.is_on_disconnect actions);
          rewrite ?delete_delete_eq in Hclosed; exact Hclosed.
Qed.

(** X13: when the websocket of a game socket has closed, after whatever
    pongs and ticks, the player no longer has the socket registered; the
    player's other game sockets, debug sockets and secret are as
    before. *)
Theorem game_socket_teardown (uuid : string) (heartbeatIntervalSeconds : Z)
    (p p' : Player.t) (events : list (Z * Socket.Event)) (s' : Socket.t) :
  GameSocket.lifetime (Socket.new uuid heartbeatIntervalSeconds) p events
  = Some (s', p') ->
  Socket.readyState s' = Socket.CLOSED ->
  Player.gameSockets p' = delete uuid (Player.gameSockets p)
  /\ Player.gameSockets p' !! uuid = None
  /\ Player.debugSockets p' = Player.debugSockets p
  /\ Player.secret p' = Player.secret p.
Proof.
  intros Hrun Hclosed.
  destruct (lifetime_sockets _ _ _ _ _ Hrun) as (_ & Hdel & Hdebug & Hsecret).
  cbn in Hdel. rewrite (Hdel Hclosed) by discriminate.
  repeat split; try assumption. apply lookup_delete_eq.
Qed.

Lemma game_socket_teardown_witness :
  exists p',
    Player.gameSockets p' = delete "c-1" (Player.gameSockets alice_two_devices)
    /\ Player.gameSockets p' !! "c-1" = None.
Proof.
  destruct (GameSocket.lifetime (Socket.new "c-1" 600) alice_two_devices
              [(1000, Socket.tick); (1500, Socket.pong); (2000, Socket.close)])
    as [[s' p']|] eqn:Hrun; [|vm_compute in Hrun; discriminate].
  exists p'.
  destruct (game_socket_teardown "c-1" 600 alice_two_devices p'
              [(1000, Socket.tick); (1500, Socket.pong); (2000, Socket.close)]
              s' Hrun) as (Hgame & Hnone & _).
  - vm_compute in Hrun. injection Hrun as <- _. reflexivity.
  - split; [exact Hgame | exact Hnone].
Defined.

Lemma logger_only_debug (l : Logger.t) (m : DebugMessage) (a : Action) :
  In a (Logger.broadcastDebugMessage l m) -> is_debug_send a = true.
Proof. intros Hin. apply broadcast_in in Hin as (k & h & _ & ->). reflexivity. Qed.

(** X14: whatever the message, [handleMessage] only writes to debug
    sockets, calls [handleCommand] or reports to [console.error]: it never
    sends on a game socket and never terminates or pings a connection.
    [handleCommand] is called exactly for a message that parses to an
    object whose [name] is truthy and can be turned into a string by the
    template literal, and it is given that object; a non-empty string is
    such a name. *)
Theorem handleMessage_dispatch
    (JSON_parse : string -> option JSON.t)
    (ToString : option JSON.t -> Completion string)
    (handleCommand : Player.t -> JSON.t -> Completion bool)
    (player : Player.t) (raw : string) :
  (forall a,
      In a (GameSocket.handleMessage JSON_parse ToString handleCommand player raw) ->
      is_debug_send a = true \/ a = console_error
      \/ exists command, a = handle_command (Player.id player) command)
  /\ (forall playerId command,
        In (handle_command playerId command)
           (GameSocket.handleMessage JSON_parse ToString handleCommand player raw)
        <-> playerId = Player.id player
            /\ JSON_parse raw = Some command
            /\ JSON.typeof_object command = true
            /\ exists name text,
                 JSON.get_name command = Return name
                 /\ JSON.truthy name = true
                 /\ Player.interpolate ToString name = Return text)
  /\ (forall text,
        text <> "" ->
        JSON.truthy (Some (JSON.str text)) = true
        /\ Player.interpolate ToString (Some (JSON.str text)) = Return text).
Proof.
  split; [|split].
  3:{ intros text Htext. split; [|reflexivity].
      cbn. now rewrite bool_decide_eq_false_2. }
  all: unfold GameSocket.handleMessage, Player.handleCommandInternalWrapper,
         Logger.error, Logger.trace.
  all: destruct (JSON_parse raw) as [command|];
    [|solve [ intros a Hin; left; eapply logger_only_debug, Hin
            | intros pid c; split;
              [ intros Hin; apply logger_only_debug in Hin; discriminate Hin
              | intros (_ & Hparse & _); discriminate Hparse ] ]].
  all: destruct (JSON.typeof_object command) eqn:Hobject; cbn [negb];
    [|solve [ intros a Hin; left; eapply logger_only_debug, Hin
            | intros pid c; split;
              [ intros Hin; apply logger_only_debug in Hin; discriminate Hin
              | intros (_ & Hparse & Htype & _); injection Hparse as <-;
                congruence ] ]].
  all: destruct (JSON.get_name command) as [name|err] eqn:Hname;
    [|solve [ intros a Hin; left; eapply logger_only_debug, Hin
            | intros pid c; split;
              [ intros Hin; apply logger_only_debug in Hin; discriminate Hin
              | intros (_ & Hparse & _ & name & text & Hget & _);
                injection Hparse as <-; congruence ] ]].
  all: destruct (JSON.truthy name) eqn:Htruthy; cbn [negb];
    [|solve [ intros a Hin; left; eapply logger_only_debug, Hin
            | intros pid c; split;
              [ intros Hin; apply logger_only_debug in Hin; discriminate Hin
              | intros (_ & Hparse & _ & name' & text & Hget & Htrue & _);
                injection Hparse as <-; congruence ] ]].
  all: destruct (Player.interpolate ToString name) as [text|err] eqn:Htext;
    [|solve [ intros a [<-|[]]; right; left; reflexivity
            | intros pid c; split;
              [ intros [Heq|[]]; discriminate Heq
              | intros (_ & Hparse & _ & name' & text & Hget & _ & Hconv);
                injection Hparse as <-; congruence ] ]].
  - intros a Hin. apply in_app_iff in Hin as [Hin | [<- | Hin]].
    + left. eapply logger_only_debug, Hin.
    + right; right. now eexists.
    + destruct (handleCommand player command) as [[|]|err]; cbn in Hin.
      * destruct Hin.
      * left. eapply logger_only_debug, Hin.
      * destruct Hin as [<-|[]]. right; left. reflexivity.
  - intros pid c. split.
    + intros Hin. apply in_app_iff in Hin as [Hin | [Heq | Hin]].
      * apply logger_only_debug in Hin. discriminate Hin.
      * injection Heq as <- <-. repeat split; try assumption.
        now exists name, text.
      * destruct (handleCommand player command) as [[|]|err]; cbn in Hin.
        -- destruct Hin.
        -- apply logger_only_debug in Hin. discriminate Hin.
        -- destruct Hin as [Heq|[]]. discriminate Heq.
    + intros (-> & Hparse & _). injection Hparse as <-.
      apply in_app_iff. right. now left.
Qed.

(** ** game.ts: activity and players *)

Lemma within_window_iff {Config : Type} (g : Game.t Config) (now : Z)
    (player : Player.t) :
  Game.within_window g now player = true
  <-> Player.active player = true
      \/ now - Game.MAX_INACTIVE_TIME_MINUTES g * 60 * 1000
         < Player.inactiveSince player.
Proof.
  unfold Game.within_window. rewrite orb_true_iff, Z.gtb_ltb, Z.ltb_lt.
  reflexivity.
Qed.

Lemma active_true_iff {Config : Type} (g : Game.t Config) (now : Z) :
  Game.active g now = true
  <-> exists playerId player,
        Game.players g !! playerId = Some player
        /\ (Player.active player = true
            \/ now - Game.MAX_INACTIVE_TIME_MINUTES g * 60 * 1000
               < Player.inactiveSince player).
Proof.
  rewrite active_exists, existsb_exists. split.
  - intros (player & Hin & Hwin). apply in_Object_values in Hin as [k Hk].
    exists k, player. split; [exact Hk | now apply within_window_iff].
  - intros (k & player & Hk & Hwin). exists player. split.
    + apply in_Object_values. now exists k.
    + now apply within_window_iff.
Qed.

(** X15: [active()] returns true exactly when some player of the game
    has a game socket or became inactive less than
    [MAX_INACTIVE_TIME_MINUTES] minutes ago. *)
Theorem active_iff {Config : Type} (g : Game.t Config) (now : Z) :
  Game.active g now = true
  <-> exists playerId player,
        Game.players g !! playerId = Some player
        /\ (Player.active player = true
            \/ now - Game.MAX_INACTIVE_TIME_MINUTES g * 60 * 1000
               < Player.inactiveSince player).
Proof. apply active_true_iff. Qed.

Lemma active_loop_terminated {Config : Type} (g : Game.t Config) (now : Z)
    (ps : list Player.t) :
  forall acc : bool * list Handle,
    (fold_left
       (fun (acc : bool * list Handle) (player : Player.t) =>
          if Game.within_window g now player then (true, acc.2)
          else (acc.1, acc.2 ++ Player.terminate player))
       ps acc).2
    = acc.2 ++ flat_map (fun player => if Game.within_window g now player then []
                                       else Player.terminate player) ps.
Proof.
  induction ps as [|p ps IH]; intros acc; cbn [fold_left flat_map].
  - now rewrite app_nil_r.
  - rewrite IH. destruct (Game.within_window g now p); cbn [fst snd].
    + reflexivity.
    + now rewrite <- app_assoc.
Qed.

(** X16: the sockets [active()] terminates are the debug sockets of
    the players that have no game socket and have been inactive for the
    whole window; [active()] never terminates a game socket. *)
Theorem active_terminates {Config : Type} (g : Game.t Config) (now : Z)
    (socket : Handle) :
  In socket (Game.active_run g now).2
  <-> exists playerId player k,
        Game.players g !! playerId = Some player
        /\ Player.gameSockets player = ∅
        /\ Player.inactiveSince player
           <= now - Game.MAX_INACTIVE_TIME_MINUTES g * 60 * 1000
        /\ Player.debugSockets player !! k = Some socket.
Proof.
  unfold Game.active_run, Game.active_loop.
  rewrite active_loop_terminated. cbn [snd app]. rewrite in_flat_map. split.
  - intros (player & Hin & Hterm). apply in_Object_values in Hin as [pid Hpid].
    destruct (Game.within_window g now player) eqn:Hwin; [destruct Hterm|].
    unfold Game.within_window in Hwin. apply orb_false_iff in Hwin as [Hidle Hold].
    unfold Player.active in Hidle. apply negb_false_iff, Z.eqb_eq in Hidle.
    apply keys_length_0 in Hidle.
    unfold Player.terminate in Hterm. rewrite Hidle in Hterm.
    unfold Object_values at 1 in Hterm. rewrite map_to_list_empty in Hterm.
    cbn in Hterm. apply in_Object_values in Hterm as [k Hk].
    exists pid, player, k. repeat split; try assumption.
    rewrite Z.gtb_ltb in Hold. now apply Z.ltb_ge.
  - intros (pid & player & k & Hpid & Hidle & Hold & Hk).
    exists player. split; [apply in_Object_values; now exists pid|].
    assert (Hwin : Game.within_window g now player = false).
    { unfold Game.within_window, Player.active. rewrite Hidle.
      cbn. rewrite Z.gtb_ltb. now apply Z.ltb_ge. }
    rewrite Hwin. unfold Player.terminate. apply in_app_iff. right.
    apply in_Object_values. now exists k.
Qed.

(** X17: a game for which [active()] is false at some time stays
    inactive at every later time, as long as its players do not
    change. *)
Theorem inactive_later {Config : Type} (g : Game.t Config) (now later : Z) :
  now <= later ->
  Game.active g now = false ->
  Game.active g later = false.
Proof.
  intros Hle Hnow. apply not_true_is_false. intros Hlater.
  apply active_true_iff in Hlater as (pid & player & Hpid & Hwin).
  assert (Hthen : Game.active g now = true); [|congruence].
  apply active_true_iff. exists pid, player. split; [exact Hpid|].
  destruct Hwin as [Hactive | Hrecent]; [now left | right; lia].
Qed.

Lemma inactive_later_witness :
  Game.active deserted 600000 = true
  /\ Game.active deserted 700000 = false
  /\ Game.active deserted 800000 = false.
Proof.
  split; [vm_compute; reflexivity|]. split; [vm_compute; reflexivity|].
  apply (inactive_later deserted 700000 800000); [lia | vm_compute; reflexivity].
Defined.

(** X18: in a game that is not full, [addPlayer] returns the player the
    game class created and registers it under its id.  When the
    [playerAdded] hook leaves the players and the limit alone, the other
    players are as before, the player count does not exceed
    [MAX_PLAYER_COUNT], and it has grown by one if the id was not in
    use. *)
Theorem addPlayer_registers {Config : Type} (sub : Game.Subclass Config)
    (g : Game.t Config) (username uuid : string) (r : Secret.Rng) :
  let created := Game.createPlayer sub username uuid r in
  let g1 := Game.set_players g
              (<[Player.id created.1 := created.1]> (Game.players g)) in
  Game.full g = false ->
  Game.players (Game.playerAdded sub g1 created.1) = Game.players g1 ->
  Game.MAX_PLAYER_COUNT (Game.playerAdded sub g1 created.1)
  = Game.MAX_PLAYER_COUNT g ->
  exists g',
    Game.addPlayer sub g username uuid r = (Return created.1, g', created.2)
    /\ Game.getPlayer g' (Player.id created.1) = Some created.1
    /\ (forall k, k <> Player.id created.1 ->
                  Game.getPlayer g' k = Game.getPlayer g k)
    /\ Game.getPlayerCount g' <= Game.MAX_PLAYER_COUNT g'
    /\ (Game.getPlayer g (Player.id created.1) = None ->
        Game.getPlayerCount g' = Game.getPlayerCount g + 1).
Proof.
  cbn zeta. intros Hfull Hplayers Hmax.
  unfold Game.addPlayer. rewrite Hfull.
  destruct (Game.createPlayer sub username uuid r) as [newPlayer r'].
  cbn [fst snd] in *. eexists. split; [reflexivity|].
  unfold Game.getPlayer, Game.getPlayerCount, Object_keys_length.
  rewrite Hplayers, Hmax. cbn [Game.players Game.set_players].
  unfold Game.full, Game.getPlayerCount, Object_keys_length in Hfull.
  apply negb_false_iff, Z.ltb_lt in Hfull.
  split; [apply lookup_insert_eq|]. split; [|split].
  - intros k Hk. now rewrite lookup_insert_ne.
  - rewrite map_size_insert. destruct (Game.players g !! Player.id newPlayer);
      cbn; lia.
  - intros Hfresh. rewrite map_size_insert_None by exact Hfresh. lia.
Qed.

Lemma addPlayer_registers_witness :
  exists g',
    Game.addPlayer plain abandoned "bob" "f2" half_rng
    = (Return (Game.createPlayer plain "bob" "f2" half_rng).1, g',
       (Game.createPlayer plain "bob" "f2" half_rng).2)
    /\ Game.getPlayerCount g' = Game.getPlayerCount abandoned + 1.
Proof.
  destruct (addPlayer_registers plain abandoned "bob" "f2" half_rng)
    as (g' & Hcall & _ & _ & _ & Hcount).
  - vm_compute. reflexivity.
  - vm_compute. reflexivity.
  - vm_compute. reflexivity.
  - exists g'. split; [exact Hcall|]. apply Hcount. vm_compute. reflexivity.
Defined.

(** X19: [removePlayer(player)] deregisters the id of the player: when
    the [playerRemoved] hook leaves the players alone, the game no
    longer finds a player under that id, the other players are as
    before, and the player count has dropped by one if the id was
    registered.  The player's sockets are not touched. *)
Theorem removePlayer_deregisters {Config : Type} (sub : Game.Subclass Config)
    (g : Game.t Config) (player : Player.t) :
  Game.players (Game.playerRemoved sub g player) = Game.players g ->
  Game.getPlayer (Game.removePlayer sub g player) (Player.id player) = None
  /\ (forall k, k <> Player.id player ->
                Game.getPlayer (Game.removePlayer sub g player) k
                = Game.getPlayer g k)
  /\ (is_Some (Game.getPlayer g (Player.id player)) ->
      Game.getPlayerCount (Game.removePlayer sub g player)
      = Game.getPlayerCount g - 1)
  /\ (Game.getPlayer g (Player.id player) = None ->
      Game.players (Game.removePlayer sub g player) = Game.players g).
Proof.
  intros Hhook. unfold Game.removePlayer, Game.getPlayer, Game.getPlayerCount,
    Object_keys_length.
  cbn [Game.players Game.set_players]. rewrite Hhook.
  split; [apply lookup_delete_eq|]. split; [|split].
  - intros k Hk. now rewrite lookup_delete_ne.
  - intros Hsome. rewrite map_size_delete_Some by exact Hsome.
    destruct Hsome as [x Hx].
    assert (size (Game.players g) <> 0%nat).
    { intros H0. apply map_size_empty_iff in H0. rewrite H0, lookup_empty in Hx.
      discriminate. }
    lia.
  - intros Hnone. now apply delete_id.
Qed.

Lemma removePlayer_deregisters_witness :
  Game.getPlayer (Game.removePlayer plain solo alice) "f1" = None
  /\ Game.getPlayerCount (Game.removePlayer plain solo alice) = 0.
Proof.
  destruct (removePlayer_deregisters plain solo alice) as (Hnone & _ & Hcount & _).
  - reflexivity.
  - split; [exact Hnone|]. rewrite Hcount; [vm_compute; reflexivity|].
    vm_compute. eexists. reflexivity.
Defined.

(** ** server.ts: the inactivity sweep *)

Lemma filter_none {A : Type} (f : A -> bool) (l : list A) :
  (forall x, In x l -> f x = false) -> List.filter f l = [].
Proof.
  induction l as [|a l IH]; cbn; intros H; [reflexivity|].
  rewrite (H a) by now left. apply IH. intros x Hx. apply H. now right.
Qed.

Section SweepMore.
Context {Config : Type}.
Implicit Types (s : GameServer.t Config) (g : Game.t Config).

Lemma deleteInactive_step_deleted (now : Z) (acc : GameServer.Sweep)
    (gameId : string) g :
  GameServer.deleted (GameServer.deleteInactive_step now acc (gameId, g))
  = GameServer.deleted acc ++ (if Game.active g now then [] else [gameId]).
Proof.
  unfold GameServer.deleteInactive_step, Game.active.
  destruct (Game.active_run g now) as [[|] stale]; cbn;
    [now rewrite app_nil_r | reflexivity].
Qed.

Lemma deleteInactive_step_config (now : Z) (acc : GameServer.Sweep)
    (entry : string * Game.t Config) :
  GameServer.MAX_GAMES_COUNT
    (GameServer.server (GameServer.deleteInactive_step now acc entry))
  = GameServer.MAX_GAMES_COUNT (GameServer.server acc)
  /\ GameServer.HEARTBEAT_INTERVAL_SECONDS
       (GameServer.server (GameServer.deleteInactive_step now acc entry))
     = GameServer.HEARTBEAT_INTERVAL_SECONDS (GameServer.server acc)
  /\ GameServer.logger
       (GameServer.server (GameServer.deleteInactive_step now acc entry))
     = GameServer.logger (GameServer.server acc).
Proof.
  destruct entry as [gameId g]. rewrite deleteInactive_step_server.
  now destruct (Game.active g now).
Qed.

Lemma deleteInactive_fold_more (now : Z)
    (entries : list (string * Game.t Config)) :
  forall acc : GameServer.Sweep,
    let res := fold_left (GameServer.deleteInactive_step now) entries acc in
    GameServer.deleted res
    = GameServer.deleted acc
      ++ map fst (List.filter (fun entry => negb (Game.active entry.2 now)) entries)
    /\ GameServer.MAX_GAMES_COUNT (GameServer.server res)
       = GameServer.MAX_GAMES_COUNT (GameServer.server acc)
    /\ GameServer.HEARTBEAT_INTERVAL_SECONDS (GameServer.server res)
       = GameServer.HEARTBEAT_INTERVAL_SECONDS (GameServer.server acc)
    /\ GameServer.logger (GameServer.server res)
       = GameServer.logger (GameServer.server acc).
Proof.
  induction entries as [|[gameId g] entries IH]; intros acc; cbn zeta.
  - cbn. now rewrite app_nil_r.
  - cbn [fold_left List.filter snd].
    destruct (IH (GameServer.deleteInactive_step now acc (gameId, g)))
      as (Hdel & Hmax & Hhb & Hlog).
    cbn zeta in Hdel, Hmax, Hhb, Hlog. rewrite Hdel, Hmax, Hhb, Hlog.
    rewrite deleteInactive_step_deleted.
    destruct (deleteInactive_step_config now acc (gameId, g)) as (-> & -> & ->).
    destruct (Game.active g now); cbn [negb map fst].
    + now rewrite app_nil_r.
    + now rewrite <- app_assoc.
Qed.

Lemma server_eq s s' :
  GameServer.MAX_GAMES_COUNT s' = GameServer.MAX_GAMES_COUNT s ->
  GameServer.HEARTBEAT_INTERVAL_SECONDS s' = GameServer.HEARTBEAT_INTERVAL_SECONDS s ->
  GameServer.publicGames s' = GameServer.publicGames s ->
  GameServer.privateGames s' = GameServer.privateGames s ->
  GameServer.logger s' = GameServer.logger s ->
  s' = s.
Proof. destruct s, s'. cbn. now intros -> -> -> -> ->. Qed.

(** A sweep that finds every public game active changes nothing. *)
Lemma deleteInactive_quiet s (now : Z) :
  (forall k g, GameServer.publicGames s !! k = Some g ->
               Game.active g now = true) ->
  GameServer.server (GameServer.deleteInactive s now) = s
  /\ GameServer.deleted (GameServer.deleteInactive s now) = [].
Proof.
  intros Hall.
  destruct (deleteInactive_fold_more now (Object_entries (GameServer.publicGames s))
              (GameServer.mkSweep s [] [])) as (Hdel & Hmax & Hhb & Hlog).
  cbn zeta in Hdel, Hmax, Hhb, Hlog. fold (GameServer.deleteInactive s now) in *.
  cbn [GameServer.deleted GameServer.server app] in Hdel, Hmax, Hhb, Hlog.
  split.
  - apply server_eq; try assumption.
    + apply map_eq. intros k.
      destruct (deleteInactive_fold now (Object_entries (GameServer.publicGames s))
                  (GameServer.mkSweep s [] []) k) as [Hpub _].
      cbn zeta in Hpub. fold (GameServer.deleteInactive s now) in Hpub.
      rewrite Hpub, swept_entries. cbn.
      destruct (GameServer.publicGames s !! k) as [g|] eqn:Hk; [|reflexivity].
      now rewrite (Hall k g Hk).
    + apply map_eq. intros k.
      destruct (deleteInactive_fold now (Object_entries (GameServer.publicGames s))
                  (GameServer.mkSweep s [] []) k) as [_ Hpriv].
      cbn zeta in Hpriv. fold (GameServer.deleteInactive s now) in Hpriv.
      rewrite Hpriv, swept_entries. cbn.
      destruct (GameServer.publicGames s !! k) as [g|] eqn:Hk; [|reflexivity].
      now rewrite (Hall k g Hk).
  - rewrite Hdel.
    assert (Hnone : List.filter (fun entry : string * Game.t Config =>
                                   negb (Game.active entry.2 now))
                      (Object_entries (GameServer.publicGames s)) = []).
    { apply filter_none. intros [k g] Hin. cbn.
      unfold Object_entries in Hin.
      apply list_elem_of_In, elem_of_map_to_list in Hin.
      now rewrite (Hall k g Hin). }
    now rewrite Hnone.
Qed.

(** X22: the ids the sweep reports as deleted are the ids of the public
    games for which [active()] is false; the limits and the logger of the
    server are untouched; and when [active()] is true for every public
    game the sweep changes nothing and reports nothing. *)
Theorem deleteInactive_report s (now : Z) :
  (forall k,
      In k (GameServer.deleted (GameServer.deleteInactive s now))
      <-> exists g, GameServer.publicGames s !! k = Some g
                    /\ Game.active g now = false)
  /\ GameServer.MAX_GAMES_COUNT (GameServer.server (GameServer.deleteInactive s now))
     = GameServer.MAX_GAMES_COUNT s
  /\ GameServer.logger (GameServer.server (GameServer.deleteInactive s now))
     = GameServer.logger s
  /\ ((forall k g, GameServer.publicGames s !! k = Some g ->
                   Game.active g now = true) ->
      GameServer.server (GameServer.deleteInactive s now) = s
      /\ GameServer.deleted (GameServer.deleteInactive s now) = []).
Proof.
  destruct (deleteInactive_fold_more now (Object_entries (GameServer.publicGames s))
              (GameServer.mkSweep s [] [])) as (Hdel & Hmax & Hhb & Hlog).
  cbn zeta in Hdel, Hmax, Hhb, Hlog. fold (GameServer.deleteInactive s now) in *.
  cbn [GameServer.deleted GameServer.server app] in Hdel, Hmax, Hhb, Hlog.
  split; [|split; [exact Hmax | split; [exact Hlog|]]].
  - intros k. rewrite Hdel, in_map_iff. split.
    + intros ([k' g] & Hk & Hin). cbn in Hk. subst k'.
      apply filter_In in Hin as [Hin Hinactive]. cbn in Hinactive.
      exists g. split; [|now apply negb_true_iff].
      unfold Object_entries in Hin.
      now apply list_elem_of_In, elem_of_map_to_list in Hin.
    + intros (g & Hk & Hinactive). exists (k, g). split; [reflexivity|].
      apply filter_In. split; [|cbn; now rewrite Hinactive].
      unfold Object_entries. now apply list_elem_of_In, elem_of_map_to_list.
  - apply deleteInactive_quiet.
Qed.

End SweepMore.

Lemma deleteInactive_report_witness :
  GameServer.server (GameServer.deleteInactive one_public 1000) = one_public
  /\ GameServer.deleted (GameServer.deleteInactive one_public 1000) = [].
Proof.
  destruct (deleteInactive_report one_public 1000) as (_ & _ & _ & Hquiet).
  apply Hquiet. intros k g Hk.
  destruct (decide (k = "a1")) as [->|Hne].
  - vm_compute in Hk. injection Hk as <-. vm_compute. reflexivity.
  - unfold one_public in Hk. cbn in Hk.
    rewrite lookup_singleton_ne in Hk by congruence. discriminate.
Defined.

(** ** server.ts: connection upgrades *)

Lemma route_upgrade_rejects_witness :
  GameServer.route_upgrade lobby wrong_secret tablet
  = (Return tt, lobby, [GameServer.socket_destroy]).
Proof.
  apply (route_upgrade_rejects lobby wrong_secret tablet).
  right; right. exists "a1", solo, "f1", alice, "guess".
  repeat split; vm_compute; reflexivity.
Defined.

Section Upgrades.
Context {Config : Type}.
Implicit Types (s : GameServer.t Config) (g : Game.t Config).

Lemma getGame_storeGame s (gameId : string) g g' :
  GameServer.getGame s gameId = Some g ->
  GameServer.getGame (GameServer.storeGame s gameId g') gameId = Some g'
  /\ (forall k, k <> gameId ->
                GameServer.getGame (GameServer.storeGame s gameId g') k
                = GameServer.getGame s k)
  /\ dom (GameServer.publicGames (GameServer.storeGame s gameId g'))
     = dom (GameServer.publicGames s)
  /\ dom (GameServer.privateGames (GameServer.storeGame s gameId g'))
     = dom (GameServer.privateGames s)
  /\ GameServer.MAX_GAMES_COUNT (GameServer.storeGame s gameId g')
     = GameServer.MAX_GAMES_COUNT s.
Proof.
  unfold GameServer.getGame, GameServer.storeGame.
  destruct (GameServer.publicGames s !! gameId) as [old|] eqn:Hpub; intros Hget; cbn.
  - rewrite lookup_insert_eq. repeat split.
    + intros k Hk. now rewrite lookup_insert_ne.
    + apply dom_insert_lookup_L. now rewrite Hpub.
  - rewrite Hpub, lookup_insert_eq. repeat split.
    + intros k Hk. now rewrite lookup_insert_ne.
    + apply dom_insert_lookup_L. now rewrite Hget.
Qed.

(** X24: a request for an existing player with the right secret and
    the player route [connect] is accepted: the raw connection is not
    destroyed, and afterwards the game found under the id has the new
    socket registered with that player, who is active; the other games
    are as before. *)
Theorem upgrade_connects s (u : GameServer.URL.t) (ws : Handle)
    (gameId playerId : string) g (player : Player.t) :
  GameServer.URL.gameId u = Some gameId -> gameId <> "" ->
  GameServer.URL.route u = Some "players" ->
  GameServer.URL.playerId u = Some playerId -> playerId <> "" ->
  GameServer.URL.playerSecret u = Some (Player.secret player) ->
  Player.secret player <> "" ->
  GameServer.URL.playerRoute u = Some "connect" ->
  GameServer.getGame s gameId = Some g ->
  Game.getPlayer g playerId = Some player ->
  exists s',
    GameServer.route_upgrade s u ws = (Return tt, s', [])
    /\ GameServer.getGame s' gameId
       = Some (GameServer.storePlayer g playerId (Player.addGameSocket player ws))
    /\ Game.getPlayer
         (GameServer.storePlayer g playerId (Player.addGameSocket player ws))
         playerId
       = Some (Player.addGameSocket player ws)
    /\ Player.gameSockets (Player.addGameSocket player ws) !! handle_id ws = Some ws
    /\ Player.active (Player.addGameSocket player ws) = true
    /\ forall k, k <> gameId -> GameServer.getGame s' k = GameServer.getGame s k.
Proof.
  intros Hid Hidne Hroute Hpid Hpidne Hsec Hsecne Hproute Hgame Hplayer.
  unfold GameServer.route_upgrade.
  rewrite Hid, Hroute, Hpid, Hsec, Hproute. cbn [GameServer.truthy default].
  unfold id.
  rewrite (bool_decide_eq_false_2 (gameId = "")) by assumption.
  rewrite (bool_decide_eq_false_2 (playerId = "")) by assumption.
  rewrite (bool_decide_eq_false_2 (Player.secret player = "")) by assumption.
  cbn [negb andb]. rewrite Hgame.
  rewrite (bool_decide_eq_false_2 (Some "players" = Some "spectate")) by discriminate.
  rewrite (bool_decide_eq_false_2 (Some "players" = Some "debug")) by discriminate.
  rewrite (bool_decide_eq_true_2 (Some "players" = Some "players")) by reflexivity.
  cbn [andb]. rewrite Hplayer.
  unfold Player.verifySecret at 1.
  rewrite (bool_decide_eq_true_2 (Player.secret player = Player.secret player))
    by reflexivity.
  cbn [negb].
  rewrite (bool_decide_eq_true_2 (Some "connect" = Some "connect")) by reflexivity.
  eexists. split; [reflexivity|].
  destruct (getGame_storeGame s gameId g
              (GameServer.storePlayer g playerId (Player.addGameSocket player ws))
              Hgame) as (Hnew & Hothers & _).
  split; [exact Hnew|]. split; [|split; [|split]].
  - unfold Game.getPlayer, GameServer.storePlayer. cbn. apply lookup_insert_eq.
  - cbn. apply lookup_insert_eq.
  - apply addGameSocket_active.
  - exact Hothers.
Qed.

(** X25: an upgrade request never creates or deletes a game and never
    changes the limit of the server, whatever the request is and however
    it ends. *)
Theorem handleUpgrade_keeps_games (deserializeURL : string -> GameServer.URL.t)
    s (url : option string) (ws : Handle) :
  let s' := (GameServer.handleUpgrade deserializeURL s url ws).1.2 in
  dom (GameServer.publicGames s') = dom (GameServer.publicGames s)
  /\ dom (GameServer.privateGames s') = dom (GameServer.privateGames s)
  /\ GameServer.MAX_GAMES_COUNT s' = GameServer.MAX_GAMES_COUNT s.
Proof.
  cbn zeta. unfold GameServer.handleUpgrade.
  destruct url as [url|]; [|repeat split].
  case_bool_decide; [repeat split|].
  case_bool_decide; [repeat split|].
  unfold GameServer.route_upgrade.
  destruct (if GameServer.truthy _ then _ else _) as [gameId|]; [|repeat split].
  destruct (GameServer.getGame s gameId) as [g|] eqn:Hgame; [|repeat split].
  repeat (case_bool_decide; cbn [andb];
          [destruct (getGame_storeGame s gameId g
                       (Game.addSpectator g ws) Hgame) as (_ & _ & ? & ? & ?)
           || idtac |]);
    repeat match goal with
           | |- context [GameServer.storeGame s gameId ?new] =>
             destruct (getGame_storeGame s gameId g new Hgame)
               as (_ & _ & ? & ? & ?); cbn [fst snd]; tauto
           | |- context [if ?b then _ else _] => destruct b eqn:?
           | |- context [match ?o with Some _ => _ | None => _ end] =>
             destruct o eqn:?
           end;
    cbn [fst snd]; repeat split.
Qed.

End Upgrades.

Lemma upgrade_connects_witness :
  exists s',
    GameServer.route_upgrade lobby connect_alice tablet = (Return tt, s', [])
    /\ GameServer.getGame s' "a1"
       = Some (GameServer.storePlayer solo "f1" (Player.addGameSocket alice tablet)).
Proof.
  destruct (upgrade_connects lobby connect_alice tablet "a1" "f1" solo alice)
    as (s' & Hcall & Hgame & _); try (vm_compute; reflexivity);
    try discriminate.
  exists s'. split; [exact Hcall | exact Hgame].
Defined.

(** ** api.ts *)

Section ApiRoutes.
Context {Config : Type}.
Implicit Types (s : GameServer.t Config) (g : Game.t Config).

Lemma addPlayer_not_full (sub : Game.Subclass Config) g
    (username uuid : string) (r : Secret.Rng) :
  Game.full g = false ->
  exists player g' r',
    Game.addPlayer sub g username uuid r = (Return player, g', r').
Proof.
  intros Hfull. unfold Game.addPlayer. rewrite Hfull.
  destruct (Game.createPlayer sub username uuid r) as [player r'].
  now eexists _, _, _.
Qed.

(** X26: [POST /api/games/:gameId/players] (for a game id that is not
    a property every object inherits) always answers.  It answers 200,
    and only then calls [addPlayer], exactly when the game exists, is not
    full, can be joined, a username is given and, for a protected game,
    the join secret is the game's secret; otherwise it answers 404, 403,
    400 or 401 and leaves the server and the random source as they
    were. *)
Theorem post_players_gate (sub : Game.Subclass Config) s
    (req : Api.JoinRequest) (uuid : string) (r : Secret.Rng) :
  ~ In (Api.gameId req) Api.Object_prototype_properties ->
  (exists response, (Api.post_players sub s req uuid r).1.1 = Return response)
  /\ ((exists b, (Api.post_players sub s req uuid r).1.1
                 = Return (Api.mkResponse 200 b))
      <-> exists g,
            GameServer.getGame s (Api.gameId req) = Some g
            /\ Game.full g = false
            /\ Game.joinable g = true
            /\ GameServer.truthy (Api.username req) = true
            /\ (Game.protected g = true ->
                GameServer.truthy (Api.join_secret req) = true
                /\ Api.join_secret req = Some (Game.secret g)))
  /\ (forall response,
        (Api.post_players sub s req uuid r).1.1 = Return response ->
        Api.status response <> 200 ->
        (Api.post_players sub s req uuid r).1.2 = s
        /\ (Api.post_players sub s req uuid r).2 = r
        /\ In (Api.status response) [404; 403; 400; 401]).
Proof.
  intros Hid. unfold Api.post_players.
  rewrite bool_decide_eq_false_2 by (intros Hin; apply Hid; now apply list_elem_of_In).
  destruct (GameServer.getGame s (Api.gameId req)) as [g|] eqn:Hgame.
  2:{ cbn. split; [now eexists|]. split.
      - split; [intros [b Hb]; discriminate Hb | intros (g & Hg & _); discriminate Hg].
      - intros response Hr _. injection Hr as <-. cbn. tauto. }
  assert (Hgate : forall P : Game.t Config -> Prop,
             (exists g', Some g = Some g' /\ P g') <-> P g).
  { intros P. split; [intros (g' & Heq & HP); now injection Heq as -> | eauto]. }
  rewrite Hgate.
  destruct (Game.full g) eqn:Hfull.
  { cbn. split; [now eexists|]. split.
    - split; [intros [b Hb]; discriminate Hb | intros (H & _); discriminate H].
    - intros response Hr _. injection Hr as <-. cbn. tauto. }
  destruct (Game.joinable g) eqn:Hjoin; cbn [negb].
  2:{ cbn. split; [now eexists|]. split.
      - split; [intros [b Hb]; discriminate Hb | intros (_ & H & _); discriminate H].
      - intros response Hr _. injection Hr as <-. cbn. tauto. }
  destruct (GameServer.truthy (Api.username req)) eqn:Huser; cbn [negb].
  2:{ cbn. split; [now eexists|]. split.
      - split; [intros [b Hb]; discriminate Hb
               | intros (_ & _ & H & _); discriminate H].
      - intros response Hr _. injection Hr as <-. cbn. tauto. }
  assert (Hsecret :
    (Game.protected g && negb (GameServer.truthy (Api.join_secret req)) = false
     /\ Game.protected g
        && negb (Game.verifySecret g (default "" (Api.join_secret req))) = false)
    <-> (Game.protected g = true ->
         GameServer.truthy (Api.join_secret req) = true
         /\ Api.join_secret req = Some (Game.secret g))).
  { unfold Game.verifySecret. destruct (Game.protected g); cbn [andb].
    2:{ split; [discriminate | tauto]. }
    destruct (Api.join_secret req) as [candidate|]; cbn [default GameServer.truthy];
      unfold id.
    - destruct (bool_decide (candidate = "")); cbn [negb].
      + split; [intros [H _]; discriminate H | intros H; now destruct (H eq_refl)].
      + case_bool_decide as Heq; cbn [negb].
        * split; [intros _ _; split; congruence | tauto].
        * split; [intros [_ H]; discriminate H
                 | intros H; destruct (H eq_refl) as [_ Hsome]; congruence].
    - split; [intros [H _]; discriminate H | intros H; now destruct (H eq_refl)]. }
  destruct (Game.protected g && negb (GameServer.truthy (Api.join_secret req)))
    eqn:Hmissing.
  { cbn. split; [now eexists|]. split.
    - split; [intros [b Hb]; discriminate Hb|].
      intros (_ & _ & _ & Hs). apply Hsecret in Hs as [H _]. discriminate H.
    - intros response Hr _. injection Hr as <-. cbn. tauto. }
  destruct (Game.protected g
            && negb (Game.verifySecret g (default "" (Api.join_secret req))))
    eqn:Hwrong.
  { cbn. split; [now eexists|]. split.
    - split; [intros [b Hb]; discriminate Hb|].
      intros (_ & _ & _ & Hs). apply Hsecret in Hs as [_ H]. discriminate H.
    - intros response Hr _. injection Hr as <-. cbn. tauto. }
  destruct (addPlayer_not_full sub g (default "" (Api.username req)) uuid r Hfull)
    as (player & g' & r' & ->).
  cbn. split; [now eexists|]. split.
  - split; [|now eexists].
    intros _. split; [reflexivity|]. split; [reflexivity|]. split; [reflexivity|].
    apply Hsecret. now split.
  - intros response Hr Hstatus. injection Hr as <-. now destruct Hstatus.
Qed.

(** X27: when [maxGamesCountReached()] is false and [active()] is true
    for every public game, [POST /api/games] answers 201 with the id and
    the secret of the game the factory built, and the game is stored
    under its id, among the public games only if the request asks for a
    public game. *)
Theorem post_games_creates (createGameFn : GameServer.CreateGameFn Config) s
    (now : Z) (req : Api.CreateRequest Config) (uuid : string) (r : Secret.Rng) :
  GameServer.maxGamesCountReached s = false ->
  (forall k g, GameServer.publicGames s !! k = Some g ->
               Game.active g now = true) ->
  let built := createGameFn (default false (Api.protected req)) (Api.config req)
                            uuid r in
  (Api.post_games createGameFn s now req uuid r).1.1
  = Return (Api.mkResponse 201
              (Api.created (Game.id built.1) (Some (Game.secret built.1))))
  /\ (Api.post_games createGameFn s now req uuid r).2 = built.2
  /\ GameServer.publicGames (Api.post_games createGameFn s now req uuid r).1.2
     = (if default false (Api.public req)
        then <[Game.id built.1 := built.1]> (GameServer.publicGames s)
        else GameServer.publicGames s)
  /\ GameServer.privateGames (Api.post_games createGameFn s now req uuid r).1.2
     = (if default false (Api.public req)
        then GameServer.privateGames s
        else <[Game.id built.1 := built.1]> (GameServer.privateGames s)).
Proof.
  intros Hroom Hactive. cbn zeta.
  unfold Api.post_games, GameServer.createGame. rewrite Hroom.
  destruct (deleteInactive_quiet s now Hactive) as [-> _]. rewrite Hroom.
  destruct (createGameFn _ _ uuid r) as [game r'].
  destruct (default false (Api.public req)); cbn; repeat split.
Qed.

End ApiRoutes.

Lemma post_players_gate_witness :
  exists b, (Api.post_players plain open_lobby join_b2 "f2" half_rng).1.1
            = Return (Api.mkResponse 200 b).
Proof.
  destruct (post_players_gate plain open_lobby join_b2 "f2" half_rng)
    as (_ & Hok & _).
  - vm_compute. intuition discriminate.
  - apply Hok. exists abandoned.
    split; [vm_compute; reflexivity|]. split; [vm_compute; reflexivity|].
    split; [vm_compute; reflexivity|]. split; [vm_compute; reflexivity|].
    intros Hprotected. vm_compute in Hprotected. discriminate.
Defined.

Lemma post_games_creates_witness :
  (Api.post_games plain_factory lobby 1000 create_private "c3" half_rng).1.1
  = Return (Api.mkResponse 201
              (Api.created
                 (Game.id (plain_factory true None "c3" half_rng).1)
                 (Some (Game.secret (plain_factory true None "c3" half_rng).1)))).
Proof.
  destruct (post_games_creates plain_factory lobby 1000 create_private
              "c3" half_rng) as (Hcall & _).
  - vm_compute. reflexivity.
  - intros k g Hk. destruct (decide (k = "a1")) as [->|Hne].
    + vm_compute in Hk. injection Hk as <-. vm_compute. reflexivity.
    + unfold lobby in Hk. cbn in Hk.
      rewrite lookup_singleton_ne in Hk by congruence. discriminate.
  - exact Hcall.
Defined.

(** ** logger.ts: the time stamp *)

Lemma padNumber_table :
  forallb (fun n => String.eqb (Clock.padNumber n) (two_digits n)) (seq 0 100)
  = true.
Proof. vm_compute. reflexivity. Qed.

(** X28: for every number below 100, so for every hour, minute and
    second, [padNumber] prints exactly two decimal digits, with a
    leading zero below 10. *)
Theorem padNumber_two_digits (n : nat) :
  (n < 100)%nat ->
  Clock.padNumber n = two_digits n
  /\ String.length (Clock.padNumber n) = 2%nat.
Proof.
  intros Hn. pose proof padNumber_table as Htable.
  rewrite forallb_forall in Htable.
  assert (Heq : Clock.padNumber n = two_digits n).
  { apply String.eqb_eq, Htable, in_seq. lia. }
  split; [exact Heq | now rewrite Heq].
Qed.

Lemma padNumber_two_digits_witness :
  Clock.padNumber 7 = two_digits 7 /\ String.length (Clock.padNumber 7) = 2%nat.
Proof. apply (padNumber_two_digits 7). lia. Defined.

(** ** socket.ts: after the close event *)

Lemma run_app (l1 l2 : list Socket.Event) :
  forall (s : Socket.t) (done : list Action),
    Socket.run s done (l1 ++ l2)
    = match Socket.run s done l1 with
      | Some (s', done') => Socket.run s' done' l2
      | None => None
      end.
Proof.
  induction l1 as [|e l1 IH]; intros s done; cbn [app Socket.run];
    [reflexivity|].
  destruct (Socket.step s e) as [[s1 actions]|]; [apply IH | reflexivity].
Qed.

(** X29: the close event is final: once a socket has seen it, no pong,
    tick or second close is delivered to it, so no execution continues
    past it; the heartbeat timer cannot fire on a closed websocket. *)
Theorem closed_is_final (uuid : string) (heartbeatIntervalSeconds : Z)
    (events : list Socket.Event) (s : Socket.t) (actions : list Action) :
  Socket.run (Socket.new uuid heartbeatIntervalSeconds) [] events
  = Some (s, actions) ->
  Socket.readyState s = Socket.CLOSED ->
  (forall e, Socket.step s e = None)
  /\ forall e rest,
       Socket.run (Socket.new uuid heartbeatIntervalSeconds) []
                  (events ++ e :: rest) = None.
Proof.
  intros Hrun Hclosed.
  assert (Hinv : lifecycle_invariant s actions).
  { eapply run_invariant; [|exact Hrun]. split; reflexivity. }
  unfold lifecycle_invariant in Hinv. rewrite Hclosed in Hinv.
  destruct Hinv as [Htimer _].
  assert (Hstuck : forall e, Socket.step s e = None).
  { intros e. unfold Socket.step, Socket.enabled.
    rewrite Hclosed, Htimer. now destruct e. }
  split; [exact Hstuck|].
  intros e rest. rewrite run_app, Hrun. cbn [Socket.run]. now rewrite Hstuck.
Qed.

Lemma closed_is_final_witness :
  Socket.run (Socket.new "c-1" 600) []
             ([Socket.tick; Socket.close] ++ Socket.tick :: [])
  = None.
Proof.
  destruct (Socket.run (Socket.new "c-1" 600) [] [Socket.tick; Socket.close])
    as [[s actions]|] eqn:Hrun; [|vm_compute in Hrun; discriminate].
  destruct (closed_is_final "c-1" 600 [Socket.tick; Socket.close] s actions Hrun)
    as [_ Hfinal].
  - vm_compute in Hrun. injection Hrun as <- _. reflexivity.
  - apply Hfinal.
Defined.

(** ** server.ts: sweeping twice *)

(** X30: a second sweep at the same time finds nothing to delete: it
    leaves the server as the first sweep left it and reports no id. *)
Theorem deleteInactive_idempotent {Config : Type} (s : GameServer.t Config)
    (now : Z) :
  GameServer.server
    (GameServer.deleteInactive
       (GameServer.server (GameServer.deleteInactive s now)) now)
  = GameServer.server (GameServer.deleteInactive s now)
  /\ GameServer.deleted
       (GameServer.deleteInactive
          (GameServer.server (GameServer.deleteInactive s now)) now)
     = [].
Proof.
  apply deleteInactive_quiet. intros k g Hk.
  unfold GameServer.deleteInactive in Hk.
  destruct (deleteInactive_fold now (Object_entries (GameServer.publicGames s))
              (GameServer.mkSweep s [] []) k) as [Hpub _].
  cbn zeta in Hpub. rewrite Hpub, swept_entries in Hk. cbn in Hk.
  destruct (GameServer.publicGames s !! k) as [g0|]; [|discriminate].
  destruct (Game.active g0 now) eqn:Hactive; cbn in Hk; [|discriminate].
  now injection Hk as <-.
Qed.
